(** * supabase-storage-cli: a shallow embedding of the command handlers

    The development follows the layout of the repository:

    - [Js]        the JavaScript notions the handlers rely on (truthiness,
                  [||], template-string pieces);
    - [NodePath]  the two functions of Node's [path] module used by the
                  code, [basename] and [extname] (POSIX flavour);
    - [Utils]     [src/utils.ts]: [formatBytes], [getContentType];
    - [Storage]   the storage client and the file system seen as oracles,
                  one field per operation the CLI calls;
    - [Effects]   the trace/exception/exit monad in which handlers run;
    - [Config]    environment variables and option defaults;
    - [BucketCmd], [FileCmd], [UrlCmd]  the three command modules
                  [src/commands/bucket.ts], [file.ts] and [url.ts];
    - [Cli]       the dispatcher of [bin/run.ts];
    - [Requirements], [Observations], [Fixtures], [Conduct], [Scenarios]
                  the vocabulary of the statements and the concrete inputs
                  they are tried on;
    - [UtilsFacts], [ContentTypeFacts], [HandlerFacts]  the properties of
                  the utilities and of the handlers;
    - [PathFacts], [BytesFacts], [RunFacts], [ActionFacts], [DiskFacts],
      [NameFacts]  further properties: paths, byte counts, the shape of
                  every run, the actions one by one, the local disk.        *)

From Stdlib Require Import List String Ascii ZArith NArith Bool Lia.
From Stdlib Require Import DecimalString.
Import ListNotations.

#[local] Open Scope string_scope.
#[local] Open Scope list_scope.

(* ================================================================== *)
(** ** JavaScript values as the handlers use them                      *)
(* ================================================================== *)

Module Js.

(** [!s] is false exactly for a non-empty string. *)
Definition truthy_str (s : string) : bool := negb (String.eqb s "").

(** An optional string field ([x?: string]): [undefined] and [''] are
    the two falsy values. *)
Definition truthy (o : option string) : bool :=
  match o with
  | Some s => truthy_str s
  | None => false
  end.

(** [a || d] for an optional string [a] and a string [d]. *)
Definition or_else (a : option string) (d : string) : string :=
  match a with
  | Some s => if truthy_str s then s else d
  | None => d
  end.

(** [a || b] where both sides may be [undefined]. *)
Definition or_opt (a b : option string) : option string :=
  if truthy a then a else b.

(** [xs || []]: arrays are always truthy, only [undefined] is replaced. *)
Definition or_nil {A} (xs : option (list A)) : list A :=
  match xs with
  | Some l => l
  | None => []
  end.

(** [`${n}`] for a non-negative integer. *)
Definition string_of_nat (n : nat) : string :=
  NilEmpty.string_of_uint (Nat.to_uint n).

Definition string_of_N (n : N) : string :=
  NilEmpty.string_of_uint (N.to_uint n).

Definition string_of_Z (z : Z) : string :=
  NilEmpty.string_of_int (Z.to_int z).

(** [String.prototype.toLowerCase] on the ASCII range: the twenty-six
    capital letters are shifted, every other byte is kept.  Strings are
    sequences of bytes here; a character outside ASCII never lowers to a
    string of the extension table, so the table lookup of [getContentType]
    is not affected. *)
Definition is_upper (c : ascii) : bool :=
  let n := nat_of_ascii c in (65 <=? n)%nat && (n <=? 90)%nat.

Definition lower_char (c : ascii) : ascii :=
  if is_upper c then ascii_of_nat (nat_of_ascii c + 32) else c.

Definition toLowerCase (s : string) : string :=
  string_of_list_ascii (map lower_char (list_ascii_of_string s)).

End Js.

(* ================================================================== *)
(** ** Node's [path] module (POSIX)                                    *)
(* ================================================================== *)

Module NodePath.

Definition CHAR_FORWARD_SLASH : ascii := "/"%char.
Definition CHAR_DOT : ascii := "."%char.

Definition is_slash (c : ascii) : bool := Ascii.eqb c CHAR_FORWARD_SLASH.
Definition is_dot (c : ascii) : bool := Ascii.eqb c CHAR_DOT.

(** [path.slice(a, b)] for [0 <= a <= b]. *)
Definition slice (cs : list ascii) (a b : Z) : list ascii :=
  firstn (Z.to_nat (b - a)) (skipn (Z.to_nat a) cs).

(** *** basename *)

Record BaseState := mkBase {
  b_start : Z;
  b_end : Z;
  b_matchedSlash : bool
}.

(** The backwards loop of [posix.basename]: [cs] holds the characters
    at indices [i], [i-1], ..., [0]. *)
Fixpoint basename_loop (cs : list ascii) (i : Z) (st : BaseState) : BaseState :=
  match cs with
  | [] => st
  | c :: rest =>
      if is_slash c then
        if negb (b_matchedSlash st)
        then mkBase (i + 1) (b_end st) (b_matchedSlash st)
        else basename_loop rest (i - 1) st
      else if (b_end st =? -1)%Z
        then basename_loop rest (i - 1) (mkBase (b_start st) (i + 1) false)
        else basename_loop rest (i - 1) st
  end.

Definition basename (p : string) : string :=
  let cs := list_ascii_of_string p in
  let st := basename_loop (rev cs) (Z.of_nat (List.length cs) - 1)
                          (mkBase 0 (-1) true) in
  if (b_end st =? -1)%Z then ""
  else string_of_list_ascii (slice cs (b_start st) (b_end st)).

(** *** extname *)

Record ExtState := mkExt {
  startDot : Z;
  startPart : Z;
  end_ : Z;
  matchedSlash : bool;
  preDotState : Z
}.

Definition ext_init : ExtState := mkExt (-1) 0 (-1) true 0.

(** One non-separator character at index [i]. *)
Definition ext_step (c : ascii) (i : Z) (st : ExtState) : ExtState :=
  let st1 :=
    if (end_ st =? -1)%Z
    then mkExt (startDot st) (startPart st) (i + 1) false (preDotState st)
    else st in
  if is_dot c then
    if (startDot st1 =? -1)%Z
    then mkExt i (startPart st1) (end_ st1) (matchedSlash st1) (preDotState st1)
    else if negb (preDotState st1 =? 1)%Z
      then mkExt (startDot st1) (startPart st1) (end_ st1) (matchedSlash st1) 1
      else st1
  else if negb (startDot st1 =? -1)%Z
    then mkExt (startDot st1) (startPart st1) (end_ st1) (matchedSlash st1) (-1)
    else st1.

Fixpoint extname_loop (cs : list ascii) (i : Z) (st : ExtState) : ExtState :=
  match cs with
  | [] => st
  | c :: rest =>
      if is_slash c then
        if negb (matchedSlash st)
        then mkExt (startDot st) (i + 1) (end_ st) (matchedSlash st) (preDotState st)
        else extname_loop rest (i - 1) st
      else extname_loop rest (i - 1) (ext_step c i st)
  end.

Definition ext_empty (st : ExtState) : bool :=
  (startDot st =? -1)%Z
  || (end_ st =? -1)%Z
  || (preDotState st =? 0)%Z
  || ((preDotState st =? 1)%Z
      && (startDot st =? end_ st - 1)%Z
      && (startDot st =? startPart st + 1)%Z).

Definition extname_chars (cs : list ascii) : list ascii :=
  let st := extname_loop (rev cs) (Z.of_nat (List.length cs) - 1) ext_init in
  if ext_empty st then [] else slice cs (startDot st) (end_ st).

Definition extname (p : string) : string :=
  string_of_list_ascii (extname_chars (list_ascii_of_string p)).

End NodePath.

(* ================================================================== *)
(** ** src/utils.ts                                                    *)
(* ================================================================== *)

Module Utils.

(** *** formatBytes

    Byte counts are file sizes: non-negative integers.  On them the
    floating-point expressions of the source are read exactly:
    [Math.floor(Math.log(bytes) / Math.log(k))] is the integer logarithm
    in base 1024 and [Math.round(x * 100) / 100] is [x] rounded half-up to
    hundredths.  The result of the rounding is kept as a number of
    hundredths and printed the way a JavaScript number prints (no
    trailing zero, no decimal point for an integer).

    The source computes in IEEE doubles, and this reading is the source's
    only where the doubles are exact:

    - dividing by a power of 1024 is exact, and the product by 100 is
      exact as long as [100 * bytes < 2 ^ 53], that is for counts up to
      90071992547409 (about 81.9 TB); above, the product is rounded before
      [Math.round] sees it and a mantissa can come out one hundredth off
      (360546355422167 prints as 327.92 TB, its exact quotient rounds to
      327.91);
    - the quotient of the two logarithms is rounded too: in that range it
      stays on the right side of every integer (a count next to a power of
      1024 is hundreds of units in the last place away from it), while
      just below [1024 ^ 5] it is not ([2 ^ 50 - 1] gets the index 5 and
      the unit [undefined]).

    So [unit_index], [hundredths] and [formatBytes] stand for the source
    on counts with [100 * bytes < 2 ^ 53], and the properties that speak
    of all counts are stated on that range.  Nothing is claimed about
    larger counts. *)

Definition k : N := 1024.
Definition sizes : list string := ["B"; "KB"; "MB"; "GB"; "TB"].

(** [Math.floor(Math.log(bytes) / Math.log(k))], for [bytes > 0] in the
    range above. *)
Definition unit_index (bytes : N) : N := (N.log2 bytes / N.log2 k)%N.

(** [Math.round((bytes / Math.pow(k, i)) * 100)]: hundredths, half-up,
    for [bytes] in the range above. *)
Definition hundredths (bytes i : N) : N :=
  ((200 * bytes + k ^ i) / (2 * k ^ i))%N.

(** The digits after the integer part when [fp / 100], [fp < 100], is
    converted to a string: none, one or two, after a point. *)
Definition fraction (fp : N) : string :=
  if (fp =? 0)%N then ""
  else if (fp mod 10 =? 0)%N then "." ++ Js.string_of_N (fp / 10)
  else if (fp <? 10)%N then ".0" ++ Js.string_of_N fp
  else "." ++ Js.string_of_N fp.

(** A number [h / 100] converted to a string. *)
Definition show_hundredths (h : N) : string :=
  Js.string_of_N (h / 100) ++ fraction (h mod 100).

(** [sizes[i]] converted to a string: an index past the table reads
    [undefined]. *)
Definition size_name (i : N) : string :=
  nth (N.to_nat i) sizes "undefined".

Definition formatBytes (bytes : N) : string :=
  if (bytes =? 0)%N then "0 B"
  else
    let i := unit_index bytes in
    show_hundredths (hundredths bytes i) ++ " " ++ size_name i.

(** *** getContentType *)

Definition mimeTypes : list (string * string) :=
  [ (".jpg", "image/jpeg");
    (".jpeg", "image/jpeg");
    (".png", "image/png");
    (".gif", "image/gif");
    (".webp", "image/webp");
    (".pdf", "application/pdf");
    (".json", "application/json");
    (".txt", "text/plain");
    (".mp4", "video/mp4");
    (".mp3", "audio/mpeg") ].

(** [mimeTypes[ext]]. *)
Fixpoint lookup (tbl : list (string * string)) (key : string) : option string :=
  match tbl with
  | [] => None
  | (k', v) :: rest => if String.eqb k' key then Some v else lookup rest key
  end.

(** The extensions the table knows. *)
Definition recognized : list string := map fst mimeTypes.

Definition octet_stream : string := "application/octet-stream".

Definition getContentType (filename : string) : string :=
  let ext := Js.toLowerCase (NodePath.extname filename) in
  Js.or_else (lookup mimeTypes ext) "application/octet-stream".

End Utils.

(* ================================================================== *)
(** ** The storage client and the local file system, as oracles        *)
(* ================================================================== *)

Module Storage.

(** An [Error] object; [StorageError] extends it.  The handlers only
    ever read its [message]. *)
Record JsError := mkError { message : string }.

(** [{ data, error: null } | { data: null, error }]. *)
Inductive Result (D : Type) :=
| Ok (data : D)
| Failed (error : JsError).
Arguments Ok {D} data.
Arguments Failed {D} error.

Definition Buffer := list Byte.byte.

Record Bucket := mkBucket {
  bucket_id : string;
  bucket_name : string;
  bucket_public : bool;
  created_at : string;
  updated_at : string;
  file_size_limit : option N;
  allowed_mime_types : option (list string)
}.

(** An entry of [list] and [remove]. *)
Record FileObject := mkFileObject {
  fo_name : string;
  fo_id : option string;
  fo_updated_at : option string;
  fo_metadata_size : option N
}.

(** The result of [info]. *)
Record FileInfo := mkFileInfo {
  fi_name : string;
  fi_id : string;
  fi_bucketId : string;
  fi_size : option N;
  fi_mimetype : option string;
  fi_cacheControl : option string;
  fi_eTag : option string;
  fi_createdAt : string;
  fi_updatedAt : string;
  fi_lastAccessedAt : option string
}.

(** The result of [upload] and [update]. *)
Record Uploaded := mkUploaded {
  up_id : string;
  up_path : string;
  up_fullPath : string
}.

Record SignedUpload := mkSignedUpload {
  su_path : string;
  su_token : string;
  su_signedUrl : string
}.

(** An entry of [createSignedUrls]:
    [{ error: string | null, path: string | null, signedUrl }]. *)
Record SignedUrlItem := mkItem {
  item_error : option string;
  item_path : option string;
  item_signedUrl : option string
}.

(** [download?: boolean | string]. *)
Inductive Download :=
| DBool (b : bool)
| DStr (s : string).

Record FileOptions := mkFileOptions {
  upsert : bool;
  contentType : string
}.

(** One constructor per client operation, with the arguments the
    handler passes. *)
Inductive Request :=
| ListBuckets
| CreateBucket (name : string) (public : bool)
| GetBucket (name : string)
| UpdateBucket (name : string) (public : bool)
| EmptyBucket (name : string)
| DeleteBucket (name : string)
| Upload (bucket path : string) (body : Buffer) (opts : FileOptions)
| DownloadFile (bucket path : string)
| ListFiles (bucket prefix : string) (limit : Z) (search : option string)
| Remove (bucket : string) (paths : list string)
| Move (bucket from to : string)
| Copy (bucket from to : string)
| Info (bucket path : string)
| Exists (bucket path : string)
| Update (bucket path : string) (body : Buffer) (opts : FileOptions)
| GetPublicUrl (bucket path : string) (download : option Download)
| CreateSignedUrl (bucket path : string) (expiresIn : Z) (download : option Download)
| CreateSignedUploadUrl (bucket path : string)
| CreateSignedUrls (bucket : string) (paths : list string) (expiresIn : Z)
                   (download : option Download).

(** What the service answers.  [exists] is the one operation whose
    answer carries [data] and [error] side by side; [getPublicUrl]
    has no [error] at all.  An operation reports a failure in the
    [error] member of its answer, as the client library does for storage
    errors; a promise that rejects instead is outside this model. *)
Record Client := mkClient {
  listBuckets : Result (list Bucket);
  createBucket : string -> bool -> Result string;
  getBucket : string -> Result Bucket;
  updateBucket : string -> bool -> Result string;
  emptyBucket : string -> Result string;
  deleteBucket : string -> Result string;
  upload : string -> string -> Buffer -> FileOptions -> Result Uploaded;
  download : string -> string -> Result Buffer;
  list_ : string -> string -> Z -> option string -> Result (list FileObject);
  remove : string -> list string -> Result (list FileObject);
  move : string -> string -> string -> Result string;
  copy : string -> string -> string -> Result string;
  info : string -> string -> Result FileInfo;
  exists_ : string -> string -> bool * option JsError;
  update : string -> string -> Buffer -> FileOptions -> Result Uploaded;
  getPublicUrl : string -> string -> option Download -> string;
  createSignedUrl : string -> string -> Z -> option Download -> Result string;
  createSignedUploadUrl : string -> string -> Result SignedUpload;
  createSignedUrls :
    string -> list string -> Z -> option Download -> Result (list SignedUrlItem)
}.

Definition error_of {D} (r : Result D) : option JsError :=
  match r with
  | Ok _ => None
  | Failed e => Some e
  end.

(** The [error] member of the answer to a request. *)
Definition response_error (c : Client) (rq : Request) : option JsError :=
  match rq with
  | ListBuckets => error_of (listBuckets c)
  | CreateBucket n p => error_of (createBucket c n p)
  | GetBucket n => error_of (getBucket c n)
  | UpdateBucket n p => error_of (updateBucket c n p)
  | EmptyBucket n => error_of (emptyBucket c n)
  | DeleteBucket n => error_of (deleteBucket c n)
  | Upload b p body o => error_of (upload c b p body o)
  | DownloadFile b p => error_of (download c b p)
  | ListFiles b p l s => error_of (list_ c b p l s)
  | Remove b ps => error_of (remove c b ps)
  | Move b f t => error_of (move c b f t)
  | Copy b f t => error_of (copy c b f t)
  | Info b p => error_of (info c b p)
  | Exists b p => snd (exists_ c b p)
  | Update b p body o => error_of (update c b p body o)
  | GetPublicUrl _ _ _ => None
  | CreateSignedUrl b p e d => error_of (createSignedUrl c b p e d)
  | CreateSignedUploadUrl b p => error_of (createSignedUploadUrl c b p)
  | CreateSignedUrls b ps e d => error_of (createSignedUrls c b ps e d)
  end.

(** The values the handlers hand to [JSON.stringify(_, null, 2)]. *)
Inductive Value :=
| VBuckets (bs : list Bucket)
| VBucket (b : Bucket)
| VName (name : string)
| VMessage (msg : string)
| VPath (path : string)
| VUploaded (u : Uploaded)
| VFiles (fs : list FileObject)
| VInfo (i : FileInfo)
| VExists (data : bool) (error : option string)
| VPublicUrl (publicUrl : string)
| VSignedUrl (signedUrl : string)
| VSignedUpload (u : SignedUpload)
| VSignedUrls (items : list SignedUrlItem).

Record Stats := mkStats { size : N }.

(** Everything outside the program: the service behind a client built
    for an endpoint and a key, the local files, and the two library
    renderers whose output the program prints unchanged. *)
Record Platform := mkPlatform {
  connect : string -> string -> Client;
  readFileSync : string -> Result Buffer;
  statSync : string -> Result Stats;
  writeFileSync : string -> Buffer -> Result unit;
  JSON_stringify : Value -> string;
  toLocaleString : string -> string
}.

End Storage.

(* ================================================================== *)
(** ** Effects: output, client calls, exceptions and process.exit     *)
(* ================================================================== *)

Module Effects.
Import Storage.

(** The four methods of the logger.  [ErrorCh] is the error channel. *)
Inductive Channel := LogCh | ErrorCh | InfoCh | SuccessCh.

Inductive Event :=
| Print (ch : Channel) (msg : string)
| NewClient (url key : string)
| Call (rq : Request)
| FsRead (path : string)
| FsStat (path : string)
| FsWrite (path : string) (body : Buffer).

Inductive Outcome (A : Type) :=
| Ret (a : A)
| Throw (e : JsError)
| Exit (code : Z).
Arguments Ret {A} a.
Arguments Throw {A} e.
Arguments Exit {A} code.

(** A computation yields the events it performed, oldest first, and
    how it ended. *)
Definition M (A : Type) : Type := list Event * Outcome A.

Definition ret {A} (a : A) : M A := ([], Ret a).

Definition bind {A B} (m : M A) (f : A -> M B) : M B :=
  match m with
  | (t, Ret a) => let '(t', o) := f a in (t ++ t', o)
  | (t, Throw e) => (t, Throw e)
  | (t, Exit c) => (t, Exit c)
  end.

Definition emit (ev : Event) : M unit := ([ev], Ret tt).
Definition throw {A} (msg : string) : M A := ([], Throw (mkError msg)).
Definition rethrow {A} (e : JsError) : M A := ([], Throw e).
Definition process_exit {A} (code : Z) : M A := ([], Exit code).

(** [try { body } catch (error) { handler }]. *)
Definition try_catch (body : M unit) (handler : JsError -> M unit) : M unit :=
  match body with
  | (t, Throw e) => let '(t', o) := handler e in (t ++ t', o)
  | r => r
  end.

(** [if (error) throw error], then go on with [data]. *)
Definition unwrap {D} (r : Result D) : M D :=
  match r with
  | Ok d => ret d
  | Failed e => rethrow e
  end.

Definition when (b : bool) (m : M unit) : M unit :=
  if b then m else ret tt.

(** [xs.forEach(f)]. *)
Fixpoint forEach {A} (xs : list A) (f : A -> M unit) : M unit :=
  match xs with
  | [] => ret tt
  | x :: rest => bind (f x) (fun _ => forEach rest f)
  end.

Definition trace {A} (m : M A) : list Event := fst m.
Definition outcome {A} (m : M A) : Outcome A := snd m.

(** The status the process ends with: a handler that returns lets the
    process end with 0; a rejection nobody catches ends it with 1. *)
Definition exit_status {A} (m : M A) : Z :=
  match outcome m with
  | Ret _ => 0
  | Throw _ => 1
  | Exit c => c
  end.

(** The client calls that were issued, in order. *)
Fixpoint calls (t : list Event) : list Request :=
  match t with
  | [] => []
  | Call rq :: rest => rq :: calls rest
  | _ :: rest => calls rest
  end.

(** What went to one channel, in order. *)
Fixpoint printed (ch : Channel) (t : list Event) : list string :=
  match t with
  | [] => []
  | Print ch' msg :: rest =>
      match ch, ch' with
      | LogCh, LogCh | ErrorCh, ErrorCh | InfoCh, InfoCh | SuccessCh, SuccessCh =>
          msg :: printed ch rest
      | _, _ => printed ch rest
      end
  | _ :: rest => printed ch rest
  end.

Definition logger_log (msg : string) : M unit := emit (Print LogCh msg).
Definition logger_error (msg : string) : M unit := emit (Print ErrorCh msg).
Definition logger_info (msg : string) : M unit := emit (Print InfoCh msg).
Definition logger_success (msg : string) : M unit := emit (Print SuccessCh msg).

Declare Scope js_scope.
Delimit Scope js_scope with js.
Notation "x <- m ;; k" := (bind m (fun x => k))
  (at level 61, m at next level, right associativity) : js_scope.
Notation "m ;; k" := (bind m (fun _ => k))
  (at level 61, right associativity) : js_scope.

End Effects.

(* ================================================================== *)
(** ** Configuration: environment and option defaults                  *)
(* ================================================================== *)

Module Config.

(** [process.env], after dotenv's [config()]. *)
Record ProcessEnv := mkEnv {
  STORAGE_URL : option string;
  STORAGE_SERVICE_KEY : option string
}.

(** yargs' [default:]: the value given on the command line wins. *)
Definition with_default {A} (flag : option A) (d : A) : A :=
  match flag with
  | Some v => v
  | None => d
  end.

(** [process.env.STORAGE_URL || 'http://localhost:5000/storage/v1']. *)
Definition default_url (env : ProcessEnv) : string :=
  Js.or_else (STORAGE_URL env) "http://localhost:5000/storage/v1".

(** [process.env.STORAGE_SERVICE_KEY || '']. *)
Definition default_key (env : ProcessEnv) : string :=
  Js.or_else (STORAGE_SERVICE_KEY env) "".

(** The three options every command declares. *)
Record GlobalFlags := mkGlobals {
  flag_url : option string;
  flag_key : option string;
  flag_json : option bool
}.

Definition resolve_url (env : ProcessEnv) (g : GlobalFlags) : string :=
  with_default (flag_url g) (default_url env).
Definition resolve_key (env : ProcessEnv) (g : GlobalFlags) : string :=
  with_default (flag_key g) (default_key env).
Definition resolve_json (g : GlobalFlags) : bool :=
  with_default (flag_json g) false.

End Config.

(* ================================================================== *)
(** ** Pieces shared by the three command modules                      *)
(* ================================================================== *)

Module Common.
Import Storage Effects.
#[local] Open Scope js_scope.

Definition nl : string := String (ascii_of_nat 10) "".

(** [getStorageClient(url, key)] of [src/utils.ts]. *)
Definition getStorageClient (P : Platform) (url key : string) : M Client :=
  emit (NewClient url key);; ret (connect P url key).

(** [if (!x) throw new Error(msg)]; afterwards [x] is a non-empty
    string. *)
Definition require (x : option string) (msg : string) : M string :=
  match x with
  | Some s => if Js.truthy_str s then ret s else throw msg
  | None => throw msg
  end.

(** [await client.op(...)]: the call is recorded, then answered. *)
Definition await {D} (rq : Request) (answer : D) : M D :=
  emit (Call rq);; ret answer.

(** The [catch] block all three handlers share. *)
Definition report_and_exit (error : JsError) : M unit :=
  logger_error (message error);; process_exit 1.

(** The credential check all three handlers start with. *)
Definition key_missing : M unit :=
  logger_error "Storage key not set";;
  logger_info "Set STORAGE_SERVICE_KEY or use --key option";;
  process_exit 1.

(** [if (n)] for an optional number. *)
Definition truthy_num (n : option N) : bool :=
  match n with
  | Some v => negb (v =? 0)%N
  | None => false
  end.

(** [if (n) f(n)] for an optional number. *)
Definition when_num (n : option N) (f : N -> M unit) : M unit :=
  match n with
  | Some v => if truthy_num n then f v else ret tt
  | None => ret tt
  end.

(** [`${x}`] for a value that may be [null]. *)
Definition show_null (o : option string) : string :=
  match o with
  | Some s => s
  | None => "null"
  end.

End Common.

(* ================================================================== *)
(** ** src/commands/bucket.ts                                          *)
(* ================================================================== *)

Module BucketCmd.
Import Storage Effects Common Config.
#[local] Open Scope string_scope.
#[local] Open Scope js_scope.

Record BucketArguments := mkArgs {
  action : string;
  name : option string;
  url : string;
  key : string;
  json : bool;
  public : option bool
}.

(** [bucket <action> [name]] with [--public] and the global options,
    as typed. *)
Record BucketCli := mkCli {
  cli_action : string;
  cli_name : option string;
  cli_public : option bool;
  cli_globals : GlobalFlags
}.

Definition builder (env : ProcessEnv) (c : BucketCli) : BucketArguments :=
  {| action := cli_action c;
     name := cli_name c;
     url := resolve_url env (cli_globals c);
     key := resolve_key env (cli_globals c);
     json := resolve_json (cli_globals c);
     public := cli_public c |}.

(** The body of [data.forEach] in [listBuckets]. *)
Definition show_bucket (bucket : Bucket) : M unit :=
  let visibility := if bucket_public bucket then "🌐 Public" else "🔒 Private" in
  logger_log ("  " ++ visibility ++ "  " ++ bucket_name bucket);;
  when_num (file_size_limit bucket) (fun limit =>
    logger_log ("    └─ Size Limit: " ++ Utils.formatBytes limit)).

Definition listBuckets (P : Platform) (client : Client) (asJson : bool) : M unit :=
  r <- await ListBuckets (Storage.listBuckets client);;
  data <- unwrap r;;
  if asJson then logger_log (JSON_stringify P (VBuckets data))
  else
    logger_log (nl ++ "📦 Buckets (" ++ Js.string_of_nat (List.length data) ++ ")" ++ nl);;
    forEach data show_bucket.

Definition createBucket (P : Platform) (client : Client) (name : string)
    (isPublic : option bool) (asJson : bool) : M unit :=
  let isPublic := with_default isPublic false in
  r <- await (CreateBucket name isPublic) (Storage.createBucket client name isPublic);;
  data <- unwrap r;;
  logger_success ("Bucket created: " ++ name);;
  when asJson (logger_log (JSON_stringify P (VName data))).

Definition getBucket (P : Platform) (client : Client) (name : string)
    (asJson : bool) : M unit :=
  r <- await (GetBucket name) (Storage.getBucket client name);;
  data <- unwrap r;;
  if asJson then logger_log (JSON_stringify P (VBucket data))
  else
    logger_log (nl ++ "📦 Bucket: " ++ bucket_name data ++ nl);;
    logger_log ("  ID:          " ++ bucket_id data);;
    logger_log ("  Public:      " ++ (if bucket_public data then "🌐 Yes" else "🔒 No"));;
    logger_log ("  Created:     " ++ created_at data);;
    logger_log ("  Updated:     " ++ updated_at data);;
    when_num (file_size_limit data) (fun limit =>
      logger_log ("  Size Limit:  " ++ Utils.formatBytes limit));;
    match allowed_mime_types data with
    | Some types => logger_log ("  MIME Types:  " ++ String.concat ", " types)
    | None => ret tt
    end.

Definition updateBucket (P : Platform) (client : Client) (name : string)
    (isPublic : option bool) (asJson : bool) : M unit :=
  match isPublic with
  | None => throw "--public flag required for update"
  | Some isPublic =>
      r <- await (UpdateBucket name isPublic) (Storage.updateBucket client name isPublic);;
      data <- unwrap r;;
      logger_success ("Bucket updated: " ++ name);;
      when asJson (logger_log (JSON_stringify P (VMessage data)))
  end.

Definition emptyBucket (client : Client) (name : string) : M unit :=
  r <- await (EmptyBucket name) (Storage.emptyBucket client name);;
  _ <- unwrap r;;
  logger_success ("Bucket emptied: " ++ name).

Definition deleteBucket (client : Client) (name : string) : M unit :=
  r <- await (DeleteBucket name) (Storage.deleteBucket client name);;
  _ <- unwrap r;;
  logger_success ("Bucket deleted: " ++ name).

(** The [switch (action)] of the handler. *)
Definition dispatch (P : Platform) (client : Client) (argv : BucketArguments) : M unit :=
  let a := action argv in
  if a =? "list" then listBuckets P client (json argv)
  else if a =? "create" then
    name <- require (name argv) "Bucket name required";;
    createBucket P client name (public argv) (json argv)
  else if a =? "get" then
    name <- require (name argv) "Bucket name required";;
    getBucket P client name (json argv)
  else if a =? "update" then
    name <- require (name argv) "Bucket name required";;
    updateBucket P client name (public argv) (json argv)
  else if a =? "empty" then
    name <- require (name argv) "Bucket name required";;
    emptyBucket client name
  else if a =? "delete" then
    name <- require (name argv) "Bucket name required";;
    deleteBucket client name
  else throw ("Unknown action: " ++ a).

Definition handler (P : Platform) (argv : BucketArguments) : M unit :=
  if negb (Js.truthy_str (key argv)) then key_missing
  else
    client <- getStorageClient P (url argv) (key argv);;
    try_catch (dispatch P client argv) report_and_exit.

End BucketCmd.

(* ================================================================== *)
(** ** src/commands/file.ts                                            *)
(* ================================================================== *)

Module FileCmd.
Import Storage Effects Common Config.
#[local] Open Scope string_scope.
#[local] Open Scope js_scope.

(** The image-transformation options of the interface are declared by
    the builder and read by no handler; they are left out. *)
Record FileArguments := mkArgs {
  action : string;
  bucket : string;
  args : option (list string);
  file : option string;
  path : option string;
  output : option string;
  from : option string;
  to : option string;
  prefix : option string;
  limit : Z;
  search : option string;
  upsert : bool;
  url : string;
  key : string;
  json : bool
}.

Record FileCli := mkCli {
  cli_action : string;
  cli_bucket : string;
  cli_args : option (list string);
  cli_file : option string;
  cli_path : option string;
  cli_output : option string;
  cli_from : option string;
  cli_to : option string;
  cli_prefix : option string;
  cli_limit : option Z;
  cli_search : option string;
  cli_upsert : option bool;
  cli_globals : GlobalFlags
}.

Definition builder (env : ProcessEnv) (c : FileCli) : FileArguments :=
  {| action := cli_action c;
     bucket := cli_bucket c;
     args := cli_args c;
     file := cli_file c;
     path := cli_path c;
     output := cli_output c;
     from := cli_from c;
     to := cli_to c;
     prefix := cli_prefix c;
     limit := with_default (cli_limit c) 100%Z;
     search := cli_search c;
     upsert := with_default (cli_upsert c) false;
     url := resolve_url env (cli_globals c);
     key := resolve_key env (cli_globals c);
     json := resolve_json (cli_globals c) |}.

(** [fs.readFileSync], [fs.statSync], [fs.writeFileSync]: recorded,
    and an exception of theirs propagates. *)
Definition fs_readFileSync (P : Platform) (p : string) : M Buffer :=
  emit (FsRead p);; unwrap (readFileSync P p).
Definition fs_statSync (P : Platform) (p : string) : M Stats :=
  emit (FsStat p);; unwrap (statSync P p).
Definition fs_writeFileSync (P : Platform) (p : string) (b : Buffer) : M unit :=
  emit (FsWrite p b);; unwrap (writeFileSync P p b).

Definition uploadFile (P : Platform) (client : Client) (bucket filePath : string)
    (remotePath : option string) (upsert asJson : bool) : M unit :=
  let fileName := Js.or_else remotePath (NodePath.basename filePath) in
  fileBuffer <- fs_readFileSync P filePath;;
  stats <- fs_statSync P filePath;;
  logger_info ("Uploading " ++ Utils.formatBytes (size stats) ++ "...");;
  let opts := mkFileOptions upsert (Utils.getContentType filePath) in
  r <- await (Upload bucket fileName fileBuffer opts)
             (Storage.upload client bucket fileName fileBuffer opts);;
  data <- unwrap r;;
  logger_success ("Uploaded: " ++ bucket ++ "/" ++ up_path data);;
  when asJson (logger_log (JSON_stringify P (VUploaded data))).

Definition downloadFile (P : Platform) (client : Client) (bucket remotePath : string)
    (outputPath : option string) (_asJson : bool) : M unit :=
  logger_info "Downloading...";;
  r <- await (DownloadFile bucket remotePath) (Storage.download client bucket remotePath);;
  buffer <- unwrap r;;
  let output := Js.or_else outputPath (NodePath.basename remotePath) in
  fs_writeFileSync P output buffer;;
  logger_success ("Downloaded: " ++ output ++ " ("
                  ++ Utils.formatBytes (N.of_nat (List.length buffer)) ++ ")").

(** The body of [data.forEach] in [listFiles]. *)
Definition show_file (P : Platform) (file : FileObject) : M unit :=
  let icon := if Js.truthy (fo_id file) then "📄" else "📁" in
  let size :=
    match fo_metadata_size file with
    | Some sz => if truthy_num (Some sz)
                 then " (" ++ Utils.formatBytes sz ++ ")" else ""
    | None => ""
    end in
  logger_log ("  " ++ icon ++ " " ++ fo_name file ++ size);;
  match fo_updated_at file with
  | Some u => when (Js.truthy_str u)
                (logger_log ("     └─ Updated: " ++ toLocaleString P u))
  | None => ret tt
  end.

(** The body of [data.forEach] in [deleteFiles]. *)
Definition show_deleted (file : FileObject) : M unit :=
  logger_log ("  ✓ " ++ fo_name file).

Definition listFiles (P : Platform) (client : Client) (bucket : string)
    (prefix : option string) (limit : Z) (search : option string)
    (asJson : bool) : M unit :=
  let dir := Js.or_else prefix "" in
  r <- await (ListFiles bucket dir limit search)
             (Storage.list_ client bucket dir limit search);;
  data <- unwrap r;;
  if asJson then logger_log (JSON_stringify P (VFiles data))
  else
    logger_log (nl ++ "📂 Files in " ++ bucket
                ++ (if Js.truthy prefix then "/" ++ Js.or_else prefix "" else "")
                ++ " (" ++ Js.string_of_nat (List.length data) ++ ")" ++ nl);;
    forEach data (show_file P).

Definition deleteFiles (P : Platform) (client : Client) (bucket : string)
    (paths : list string) (asJson : bool) : M unit :=
  logger_info ("Deleting " ++ Js.string_of_nat (List.length paths) ++ " file(s)...");;
  r <- await (Remove bucket paths) (Storage.remove client bucket paths);;
  data <- unwrap r;;
  logger_success ("Deleted " ++ Js.string_of_nat (List.length data) ++ " file(s)");;
  if asJson then logger_log (JSON_stringify P (VFiles data))
  else forEach data show_deleted.

Definition moveFile (P : Platform) (client : Client) (bucket from to : string)
    (asJson : bool) : M unit :=
  r <- await (Move bucket from to) (Storage.move client bucket from to);;
  data <- unwrap r;;
  logger_success ("Moved: " ++ from ++ " → " ++ to);;
  when asJson (logger_log (JSON_stringify P (VMessage data))).

Definition copyFile (P : Platform) (client : Client) (bucket from to : string)
    (asJson : bool) : M unit :=
  r <- await (Copy bucket from to) (Storage.copy client bucket from to);;
  data <- unwrap r;;
  logger_success ("Copied: " ++ from ++ " → " ++ to);;
  when asJson (logger_log (JSON_stringify P (VPath data))).

Definition getFileInfo (P : Platform) (client : Client) (bucket filePath : string)
    (asJson : bool) : M unit :=
  logger_info "Getting file info...";;
  r <- await (Info bucket filePath) (Storage.info client bucket filePath);;
  data <- unwrap r;;
  if asJson then logger_log (JSON_stringify P (VInfo data))
  else
    logger_log (nl ++ "📄 File: " ++ fi_name data ++ nl);;
    logger_log ("  ID:             " ++ fi_id data);;
    logger_log ("  Bucket:         " ++ fi_bucketId data);;
    logger_log ("  Size:           "
                ++ Utils.formatBytes (with_default (fi_size data) 0%N));;
    logger_log ("  Content Type:   " ++ Js.or_else (fi_mimetype data) "unknown");;
    logger_log ("  Created:        " ++ fi_createdAt data);;
    logger_log ("  Updated:        " ++ fi_updatedAt data);;
    logger_log ("  Last Accessed:  " ++ Js.or_else (fi_lastAccessedAt data) "N/A");;
    when (Js.truthy (fi_cacheControl data))
      (logger_log ("  Cache Control:  " ++ Js.or_else (fi_cacheControl data) ""));;
    when (Js.truthy (fi_eTag data))
      (logger_log ("  ETag:           " ++ Js.or_else (fi_eTag data) "")).

(** [error?.message || null]. *)
Definition error_message_or_null (error : option JsError) : option string :=
  match error with
  | Some e => if Js.truthy_str (message e) then Some (message e) else None
  | None => None
  end.

Definition checkFileExists (P : Platform) (client : Client) (bucket filePath : string)
    (asJson : bool) : M unit :=
  r <- await (Exists bucket filePath) (Storage.exists_ client bucket filePath);;
  let '(data, error) := r in
  if asJson then
    logger_log (JSON_stringify P (VExists data (error_message_or_null error)))
  else if data then logger_success ("File exists: " ++ filePath)
  else logger_info ("File does not exist: " ++ filePath).

Definition updateFile (P : Platform) (client : Client) (bucket filePath remotePath : string)
    (upsert asJson : bool) : M unit :=
  fileBuffer <- fs_readFileSync P filePath;;
  stats <- fs_statSync P filePath;;
  logger_info ("Updating " ++ Utils.formatBytes (size stats) ++ "...");;
  let opts := mkFileOptions upsert (Utils.getContentType filePath) in
  r <- await (Update bucket remotePath fileBuffer opts)
             (Storage.update client bucket remotePath fileBuffer opts);;
  data <- unwrap r;;
  logger_success ("Updated: " ++ bucket ++ "/" ++ up_path data);;
  when asJson (logger_log (JSON_stringify P (VUploaded data))).

(** [remotePath || pathsFromArgs[0]]. *)
Definition actualPath (argv : FileArguments) : option string :=
  let pathsFromArgs := Js.or_nil (args argv) in
  Js.or_opt (path argv) (hd_error pathsFromArgs).

(** The [switch (action)] of the handler.  In [move] and [copy] the
    single test [!from || !to] is read as two tests with one message. *)
Definition dispatch (P : Platform) (client : Client) (argv : FileArguments) : M unit :=
  let a := action argv in
  let bucket := bucket argv in
  if a =? "upload" then
    file <- require (file argv) "File path required (use --file)";;
    uploadFile P client bucket file (path argv) (upsert argv) (json argv)
  else if a =? "download" then
    p <- require (actualPath argv)
           "Remote path required (use --path or provide as argument)";;
    downloadFile P client bucket p (output argv) (json argv)
  else if a =? "list" then
    listFiles P client bucket (prefix argv) (limit argv) (search argv) (json argv)
  else if a =? "delete" then
    let paths := Js.or_nil (args argv) in
    if (List.length paths =? 0)%nat then throw "At least one path required"
    else deleteFiles P client bucket paths (json argv)
  else if a =? "move" then
    from <- require (from argv) "Both --from and --to required";;
    to <- require (to argv) "Both --from and --to required";;
    moveFile P client bucket from to (json argv)
  else if a =? "copy" then
    from <- require (from argv) "Both --from and --to required";;
    to <- require (to argv) "Both --from and --to required";;
    copyFile P client bucket from to (json argv)
  else if a =? "info" then
    p <- require (actualPath argv)
           "File path required (use --path or provide as argument)";;
    getFileInfo P client bucket p (json argv)
  else if a =? "exists" then
    p <- require (actualPath argv)
           "File path required (use --path or provide as argument)";;
    checkFileExists P client bucket p (json argv)
  else if a =? "update" then
    file <- require (file argv) "File path required (use --file)";;
    remotePath <- require (path argv)
           "Remote path required (use --path to specify destination)";;
    updateFile P client bucket file remotePath (upsert argv) (json argv)
  else throw ("Unknown action: " ++ a).

Definition bucket_missing : M unit :=
  logger_error "Bucket name required";; process_exit 1.

Definition handler (P : Platform) (argv : FileArguments) : M unit :=
  if negb (Js.truthy_str (key argv)) then key_missing
  else if negb (Js.truthy_str (bucket argv)) then bucket_missing
  else
    client <- getStorageClient P (url argv) (key argv);;
    try_catch (dispatch P client argv) report_and_exit.

End FileCmd.

(* ================================================================== *)
(** ** src/commands/url.ts                                             *)
(* ================================================================== *)

Module UrlCmd.
Import Storage Effects Common Config.
#[local] Open Scope string_scope.
#[local] Open Scope js_scope.

Record UrlArguments := mkArgs {
  action : string;
  bucket : string;
  path : option string;
  args : option (list string);
  expires : Z;
  url : string;
  key : string;
  json : bool;
  download : option Download
}.

Record UrlCli := mkCli {
  cli_action : string;
  cli_bucket : string;
  cli_path : option string;
  cli_args : option (list string);
  cli_expires : option Z;
  cli_download : option Download;
  cli_globals : GlobalFlags
}.

Definition builder (env : ProcessEnv) (c : UrlCli) : UrlArguments :=
  {| action := cli_action c;
     bucket := cli_bucket c;
     path := cli_path c;
     args := cli_args c;
     expires := with_default (cli_expires c) 3600%Z;
     url := resolve_url env (cli_globals c);
     key := resolve_key env (cli_globals c);
     json := resolve_json (cli_globals c);
     download := cli_download c |}.

(** [if (download)]. *)
Definition truthy_download (d : option Download) : bool :=
  match d with
  | Some (DBool b) => b
  | Some (DStr s) => Js.truthy_str s
  | None => false
  end.

(** [typeof download === 'string' ? download : 'enabled']. *)
Definition download_mode (d : option Download) : string :=
  match d with
  | Some (DStr s) => s
  | _ => "enabled"
  end.

Definition getPublicUrl (P : Platform) (client : Client) (bucket filePath : string)
    (download : option Download) (asJson : bool) : M unit :=
  publicUrl <- await (GetPublicUrl bucket filePath download)
                     (Storage.getPublicUrl client bucket filePath download);;
  if asJson then logger_log (JSON_stringify P (VPublicUrl publicUrl))
  else
    logger_log (nl ++ "🔗 Public URL:" ++ nl);;
    logger_log ("  " ++ publicUrl);;
    when (truthy_download download)
      (logger_log ("  (Download mode: " ++ download_mode download ++ ")")).

Definition getSignedUrl (P : Platform) (client : Client) (bucket filePath : string)
    (expiresIn : Z) (download : option Download) (asJson : bool) : M unit :=
  r <- await (CreateSignedUrl bucket filePath expiresIn download)
             (Storage.createSignedUrl client bucket filePath expiresIn download);;
  signedUrl <- unwrap r;;
  if asJson then logger_log (JSON_stringify P (VSignedUrl signedUrl))
  else
    logger_log (nl ++ "🔐 Signed URL (expires in " ++ Js.string_of_Z expiresIn
                ++ "s):" ++ nl);;
    logger_log ("  " ++ signedUrl).

Definition getSignedUploadUrl (P : Platform) (client : Client)
    (bucket filePath : string) (asJson : bool) : M unit :=
  r <- await (CreateSignedUploadUrl bucket filePath)
             (Storage.createSignedUploadUrl client bucket filePath);;
  data <- unwrap r;;
  if asJson then logger_log (JSON_stringify P (VSignedUpload data))
  else
    logger_log (nl ++ "🔐 Signed Upload URL:" ++ nl);;
    logger_log ("  Path:  " ++ su_path data);;
    logger_log ("  Token: " ++ su_token data);;
    logger_log ("  Signed URL: " ++ su_signedUrl data).

(** [if (item.error)]: the entry carries an error. *)
Definition has_error (item : SignedUrlItem) : bool := Js.truthy (item_error item).

(** The body of [data.forEach] in [getSignedUrls]. *)
Definition report_item (item : SignedUrlItem) : M unit :=
  if has_error item then
    logger_log ("  ✗ " ++ show_null (item_path item) ++ ": "
                ++ show_null (item_error item))
  else
    logger_log ("  ✓ " ++ show_null (item_path item));;
    logger_log ("    " ++ show_null (item_signedUrl item)).

(** [data.filter((item) => !item.error).length]. *)
Definition successCount (data : list SignedUrlItem) : nat :=
  List.length (filter (fun item => negb (has_error item)) data).

Definition tally (data : list SignedUrlItem) : string :=
  nl ++ Js.string_of_nat (successCount data) ++ "/"
     ++ Js.string_of_nat (List.length data) ++ " URLs generated successfully".

Definition getSignedUrls (P : Platform) (client : Client) (bucket : string)
    (filePaths : list string) (expiresIn : Z) (download : option Download)
    (asJson : bool) : M unit :=
  logger_info ("Creating signed URLs for "
               ++ Js.string_of_nat (List.length filePaths) ++ " file(s)...");;
  r <- await (CreateSignedUrls bucket filePaths expiresIn download)
             (Storage.createSignedUrls client bucket filePaths expiresIn download);;
  data <- unwrap r;;
  if asJson then logger_log (JSON_stringify P (VSignedUrls data))
  else
    logger_log (nl ++ "🔐 Signed URLs (expires in " ++ Js.string_of_Z expiresIn
                ++ "s):" ++ nl);;
    forEach data report_item;;
    logger_success (tally data).

(** [const paths = argv.args || []; if (path) paths.unshift(path)]. *)
Definition all_paths (argv : UrlArguments) : list string :=
  let paths := Js.or_nil (args argv) in
  match path argv with
  | Some p => if Js.truthy_str p then p :: paths else paths
  | None => paths
  end.

Definition dispatch (P : Platform) (client : Client) (argv : UrlArguments) : M unit :=
  let a := action argv in
  let bucket := bucket argv in
  if a =? "public" then
    p <- require (path argv) "Path required for public URL";;
    getPublicUrl P client bucket p (download argv) (json argv)
  else if a =? "signed" then
    p <- require (path argv) "Path required for signed URL";;
    getSignedUrl P client bucket p (expires argv) (download argv) (json argv)
  else if a =? "signed-upload" then
    p <- require (path argv) "Path required for signed upload URL";;
    getSignedUploadUrl P client bucket p (json argv)
  else if a =? "signed-urls" then
    let paths := all_paths argv in
    if (List.length paths =? 0)%nat
    then throw "At least one path required for signed URLs"
    else getSignedUrls P client bucket paths (expires argv) (download argv) (json argv)
  else throw ("Unknown action: " ++ a).

Definition bucket_missing : M unit :=
  logger_error "Bucket name required";; process_exit 1.

Definition handler (P : Platform) (argv : UrlArguments) : M unit :=
  if negb (Js.truthy_str (key argv)) then key_missing
  else if negb (Js.truthy_str (bucket argv)) then bucket_missing
  else
    client <- getStorageClient P (url argv) (key argv);;
    try_catch (dispatch P client argv) report_and_exit.

End UrlCmd.

(* ================================================================== *)
(** ** bin/run.ts: one command per process run                         *)
(* ================================================================== *)

Module Cli.
Import Storage Effects Config.

(** The command line after yargs has matched it against one of the
    three registered command modules.

    Before it calls a handler yargs validates the command line against the
    builder: an action outside the positional's [choices], or a missing
    demanded positional, ends the process with status 1 and yargs' own
    usage text, and no handler runs.  That validation is yargs' and is not
    part of this embedding: [run] below is what happens on a command line
    yargs accepts.  Statements about [run] that depend on the action fix
    it, or assume it among the [choices] ([Conduct.known_actions]). *)
Inductive Invocation :=
| Bucket (c : BucketCmd.BucketCli)
| File (c : FileCmd.FileCli)
| Url (c : UrlCmd.UrlCli).

(** The [argv] object the matched module's handler receives. *)
Inductive Parsed :=
| BucketArgs (argv : BucketCmd.BucketArguments)
| FileArgs (argv : FileCmd.FileArguments)
| UrlArgs (argv : UrlCmd.UrlArguments).

Definition globals (inv : Invocation) : GlobalFlags :=
  match inv with
  | Bucket c => BucketCmd.cli_globals c
  | File c => FileCmd.cli_globals c
  | Url c => UrlCmd.cli_globals c
  end.

Definition builder (env : ProcessEnv) (inv : Invocation) : Parsed :=
  match inv with
  | Bucket c => BucketArgs (BucketCmd.builder env c)
  | File c => FileArgs (FileCmd.builder env c)
  | Url c => UrlArgs (UrlCmd.builder env c)
  end.

Definition handler (P : Platform) (a : Parsed) : M unit :=
  match a with
  | BucketArgs argv => BucketCmd.handler P argv
  | FileArgs argv => FileCmd.handler P argv
  | UrlArgs argv => UrlCmd.handler P argv
  end.

(** An accepted command line: the builder's [argv] goes to the handler. *)
Definition run (P : Platform) (env : ProcessEnv) (inv : Invocation) : M unit :=
  handler P (builder env inv).

Definition key (a : Parsed) : string :=
  match a with
  | BucketArgs argv => BucketCmd.key argv
  | FileArgs argv => FileCmd.key argv
  | UrlArgs argv => UrlCmd.key argv
  end.

Definition url (a : Parsed) : string :=
  match a with
  | BucketArgs argv => BucketCmd.url argv
  | FileArgs argv => FileCmd.url argv
  | UrlArgs argv => UrlCmd.url argv
  end.

(** The client the handler builds for this invocation. *)
Definition client (P : Platform) (a : Parsed) : Client :=
  connect P (url a) (key a).

End Cli.

(* ================================================================== *)
(** ** What each action requires                                       *)
(* ================================================================== *)

Module Requirements.
Import Cli.
#[local] Open Scope string_scope.

(** [missing a msg]: the arguments [a] lack something their action
    requires, and [msg] is the message that names it.  A file or url
    action needs its bucket first; [update] needs its source before its
    destination. *)
Inductive missing : Parsed -> string -> Prop :=
| bucket_name (argv : BucketCmd.BucketArguments) :
    In (BucketCmd.action argv) ["create"; "get"; "update"; "empty"; "delete"] ->
    Js.truthy (BucketCmd.name argv) = false ->
    missing (BucketArgs argv) "Bucket name required"
| bucket_visibility (argv : BucketCmd.BucketArguments) :
    BucketCmd.action argv = "update" ->
    Js.truthy (BucketCmd.name argv) = true ->
    BucketCmd.public argv = None ->
    missing (BucketArgs argv) "--public flag required for update"
| file_bucket (argv : FileCmd.FileArguments) :
    Js.truthy_str (FileCmd.bucket argv) = false ->
    missing (FileArgs argv) "Bucket name required"
| file_source (argv : FileCmd.FileArguments) :
    Js.truthy_str (FileCmd.bucket argv) = true ->
    In (FileCmd.action argv) ["upload"; "update"] ->
    Js.truthy (FileCmd.file argv) = false ->
    missing (FileArgs argv) "File path required (use --file)"
| file_destination (argv : FileCmd.FileArguments) :
    Js.truthy_str (FileCmd.bucket argv) = true ->
    FileCmd.action argv = "update" ->
    Js.truthy (FileCmd.file argv) = true ->
    Js.truthy (FileCmd.path argv) = false ->
    missing (FileArgs argv)
      "Remote path required (use --path to specify destination)"
| file_download_path (argv : FileCmd.FileArguments) :
    Js.truthy_str (FileCmd.bucket argv) = true ->
    FileCmd.action argv = "download" ->
    Js.truthy (FileCmd.path argv) = false ->
    Js.truthy (hd_error (Js.or_nil (FileCmd.args argv))) = false ->
    missing (FileArgs argv)
      "Remote path required (use --path or provide as argument)"
| file_info_path (argv : FileCmd.FileArguments) :
    Js.truthy_str (FileCmd.bucket argv) = true ->
    In (FileCmd.action argv) ["info"; "exists"] ->
    Js.truthy (FileCmd.path argv) = false ->
    Js.truthy (hd_error (Js.or_nil (FileCmd.args argv))) = false ->
    missing (FileArgs argv)
      "File path required (use --path or provide as argument)"
| file_delete_paths (argv : FileCmd.FileArguments) :
    Js.truthy_str (FileCmd.bucket argv) = true ->
    FileCmd.action argv = "delete" ->
    Js.or_nil (FileCmd.args argv) = [] ->
    missing (FileArgs argv) "At least one path required"
| file_from_to (argv : FileCmd.FileArguments) :
    Js.truthy_str (FileCmd.bucket argv) = true ->
    In (FileCmd.action argv) ["move"; "copy"] ->
    Js.truthy (FileCmd.from argv) = false \/ Js.truthy (FileCmd.to argv) = false ->
    missing (FileArgs argv) "Both --from and --to required"
| url_bucket (argv : UrlCmd.UrlArguments) :
    Js.truthy_str (UrlCmd.bucket argv) = false ->
    missing (UrlArgs argv) "Bucket name required"
| url_public_path (argv : UrlCmd.UrlArguments) :
    Js.truthy_str (UrlCmd.bucket argv) = true ->
    UrlCmd.action argv = "public" ->
    Js.truthy (UrlCmd.path argv) = false ->
    missing (UrlArgs argv) "Path required for public URL"
| url_signed_path (argv : UrlCmd.UrlArguments) :
    Js.truthy_str (UrlCmd.bucket argv) = true ->
    UrlCmd.action argv = "signed" ->
    Js.truthy (UrlCmd.path argv) = false ->
    missing (UrlArgs argv) "Path required for signed URL"
| url_signed_upload_path (argv : UrlCmd.UrlArguments) :
    Js.truthy_str (UrlCmd.bucket argv) = true ->
    UrlCmd.action argv = "signed-upload" ->
    Js.truthy (UrlCmd.path argv) = false ->
    missing (UrlArgs argv) "Path required for signed upload URL"
| url_signed_urls_paths (argv : UrlCmd.UrlArguments) :
    Js.truthy_str (UrlCmd.bucket argv) = true ->
    UrlCmd.action argv = "signed-urls" ->
    Js.truthy (UrlCmd.path argv) = false ->
    Js.or_nil (UrlCmd.args argv) = [] ->
    missing (UrlArgs argv) "At least one path required for signed URLs".

End Requirements.

(* ================================================================== *)
(** ** Fixtures, after the mocks of tests/commands                     *)
(* ================================================================== *)

Module Fixtures.
Import Storage Effects Config.
#[local] Open Scope string_scope.

Definition storage_error : JsError := mkError "Storage error".

Definition signed_items : list SignedUrlItem :=
  [ mkItem None (Some "file1.txt") (Some "http://localhost/file1.txt?token=abc");
    mkItem (Some "File not found") (Some "missing.txt") None ].

Definition removed : list FileObject :=
  [ mkFileObject "a.txt" (Some "1") None None ].

(** A service on which the bucket and signed-url operations succeed. *)
Definition ok_client : Client :=
  {| listBuckets := Ok [];
     createBucket := fun n _ => Ok n;
     getBucket := fun n => Ok (mkBucket n n false "" "" None None);
     updateBucket := fun _ _ => Ok "Successfully updated";
     emptyBucket := fun _ => Ok "Successfully emptied";
     deleteBucket := fun _ => Ok "Successfully deleted";
     upload := fun b p _ _ => Ok (mkUploaded "1" p (b ++ "/" ++ p));
     download := fun _ _ => Ok [];
     list_ := fun _ _ _ _ => Ok [];
     remove := fun _ _ => Ok removed;
     move := fun _ _ _ => Ok "Successfully moved";
     copy := fun _ _ t => Ok t;
     info := fun b p => Ok (mkFileInfo p "1" b None None None None "" "" None);
     exists_ := fun _ _ => (true, None);
     update := fun b p _ _ => Ok (mkUploaded "1" p (b ++ "/" ++ p));
     getPublicUrl := fun b p _ => "http://localhost/" ++ b ++ "/" ++ p;
     createSignedUrl := fun _ p _ _ => Ok ("http://localhost/" ++ p ++ "?token=abc");
     createSignedUploadUrl := fun _ p => Ok (mkSignedUpload p "abc" "http://localhost/");
     createSignedUrls := fun _ _ _ _ => Ok signed_items |}.

(** A service on which every operation that can fail does. *)
Definition failing_client : Client :=
  {| listBuckets := Failed storage_error;
     createBucket := fun _ _ => Failed storage_error;
     getBucket := fun _ => Failed storage_error;
     updateBucket := fun _ _ => Failed storage_error;
     emptyBucket := fun _ => Failed storage_error;
     deleteBucket := fun _ => Failed storage_error;
     upload := fun _ _ _ _ => Failed storage_error;
     download := fun _ _ => Failed storage_error;
     list_ := fun _ _ _ _ => Failed storage_error;
     remove := fun _ _ => Failed storage_error;
     move := fun _ _ _ => Failed storage_error;
     copy := fun _ _ _ => Failed storage_error;
     info := fun _ _ => Failed storage_error;
     exists_ := fun _ _ => (false, Some storage_error);
     update := fun _ _ _ _ => Failed storage_error;
     getPublicUrl := fun b p _ => "http://localhost/" ++ b ++ "/" ++ p;
     createSignedUrl := fun _ _ _ _ => Failed storage_error;
     createSignedUploadUrl := fun _ _ => Failed storage_error;
     createSignedUrls := fun _ _ _ _ => Failed storage_error |}.

Definition platform (c : Client) : Platform :=
  {| connect := fun _ _ => c;
     readFileSync := fun _ => Ok [];
     statSync := fun _ => Ok (mkStats 12);
     writeFileSync := fun _ _ => Ok tt;
     JSON_stringify := fun _ => "{}";
     toLocaleString := fun s => s |}.

Definition no_env : ProcessEnv := mkEnv None None.
Definition local_url : string := "http://localhost:5000/storage/v1".

Definition file_args (action : string) (args : option (list string))
    (file path : option string) (json : bool) : FileCmd.FileArguments :=
  {| FileCmd.action := action;
     FileCmd.bucket := "test-bucket";
     FileCmd.args := args;
     FileCmd.file := file;
     FileCmd.path := path;
     FileCmd.output := None;
     FileCmd.from := None;
     FileCmd.to := None;
     FileCmd.prefix := None;
     FileCmd.limit := 100;
     FileCmd.search := None;
     FileCmd.upsert := false;
     FileCmd.url := local_url;
     FileCmd.key := "test-key";
     FileCmd.json := json |}.

Definition bucket_args (action : string) (name : option string)
    (public : option bool) : BucketCmd.BucketArguments :=
  {| BucketCmd.action := action;
     BucketCmd.name := name;
     BucketCmd.url := local_url;
     BucketCmd.key := "test-key";
     BucketCmd.json := false;
     BucketCmd.public := public |}.

Definition url_args (action : string) (path : option string)
    (args : option (list string)) (expires : Z) : UrlCmd.UrlArguments :=
  {| UrlCmd.action := action;
     UrlCmd.bucket := "test-bucket";
     UrlCmd.path := path;
     UrlCmd.args := args;
     UrlCmd.expires := expires;
     UrlCmd.url := local_url;
     UrlCmd.key := "test-key";
     UrlCmd.json := false;
     UrlCmd.download := None |}.

End Fixtures.

(* ================================================================== *)
(** ** What a run shows                                                *)
(* ================================================================== *)

Module Observations.
Import Storage Effects Common.
#[local] Open Scope string_scope.

Definition is_exists (rq : Request) : bool :=
  match rq with
  | Exists _ _ => true
  | _ => false
  end.

(** A computation that only writes lines with [logger.log]. *)
Definition log_only (m : M unit) : Prop :=
  exists msgs : list string, m = (map (Print LogCh) msgs, Ret tt).

(** [m] issues the one request [rq], prints nothing on the error
    channel itself, and throws the error of the answer when there is
    one, [exists] apart. *)
Definition answers (c : Client) (rq : Request) (m : M unit) : Prop :=
  calls (trace m) = [rq]
  /\ printed ErrorCh (trace m) = []
  /\ forall e : JsError,
      response_error c rq = Some e -> is_exists rq = false -> outcome m = Throw e.

(** Whatever request [m] issued, an error in its answer is thrown,
    [exists] apart. *)
Definition reports_failures (c : Client) (m : M unit) : Prop :=
  printed ErrorCh (trace m) = []
  /\ forall (rq : Request) (e : JsError),
      In rq (calls (trace m)) ->
      response_error c rq = Some e ->
      is_exists rq = false ->
      outcome m = Throw e.

(** What the three handlers do once the credential (and the bucket) are
    there. *)
Definition guarded (P : Platform) (url key : string) (body : Client -> M unit)
  : M unit :=
  bind (getStorageClient P url key)
       (fun client => try_catch (body client) report_and_exit).

(** The one line [checkFileExists] prints for an answer of
    [client.exists]. *)
Definition exists_report (P : Platform) (json : bool) (filePath : string)
    (r : bool * option JsError) : Event :=
  if json then
    Print LogCh
      (JSON_stringify P (VExists (fst r) (FileCmd.error_message_or_null (snd r))))
  else if fst r then Print SuccessCh ("File exists: " ++ filePath)
  else Print InfoCh ("File does not exist: " ++ filePath).

(** The lines [getSignedUrls] prints for one returned entry: the failure
    marker with the path and the error, or the success marker with the path
    and then the URL. *)
Definition entry_lines (item : SignedUrlItem) : list string :=
  if Js.truthy (item_error item)
  then [ "  ✗ " ++ show_null (item_path item) ++ ": " ++ show_null (item_error item) ]
  else [ "  ✓ " ++ show_null (item_path item);
         "    " ++ show_null (item_signedUrl item) ].

End Observations.

(* ================================================================== *)
(** ** Vocabulary of the further properties                            *)
(* ================================================================== *)

Module Conduct.
Import Storage Effects Common.
#[local] Open Scope string_scope.

(** A path component: no separator among the characters. *)
Definition no_slash (cs : list ascii) : bool :=
  forallb (fun c => negb (NodePath.is_slash c)) cs.

(** The state of the [extname] scan when every index it recorded is
    moved [k] places to the right; [-1] stays "not seen yet". *)
Definition shift_ext (k : Z) (st : NodePath.ExtState) : NodePath.ExtState :=
  NodePath.mkExt
    (if (NodePath.startDot st =? -1)%Z then (-1)%Z else (NodePath.startDot st + k)%Z)
    (NodePath.startPart st)
    (if (NodePath.end_ st =? -1)%Z then (-1)%Z else (NodePath.end_ st + k)%Z)
    (NodePath.matchedSlash st)
    (NodePath.preDotState st).

(** The indices a scan records are positions or [-1]. *)
Definition ext_wf (st : NodePath.ExtState) : Prop :=
  (-1 <= NodePath.startDot st)%Z /\ (-1 <= NodePath.end_ st)%Z.

(** How a computation inside the handlers' [try] behaves: it writes
    nothing on the error channel, issues at most one request, and either
    returns or throws. *)
Definition tame (m : M unit) : Prop :=
  printed ErrorCh (trace m) = []
  /\ (List.length (calls (trace m)) <= 1)%nat
  /\ (outcome m = Ret tt \/ exists e : JsError, outcome m = Throw e).

(** Two computations a caller of the process cannot tell apart by the
    requests sent, the way they end, or the error channel. *)
Definition same_conduct (m1 m2 : M unit) : Prop :=
  calls (trace m1) = calls (trace m2)
  /\ outcome m1 = outcome m2
  /\ printed ErrorCh (trace m1) = printed ErrorCh (trace m2).

(** The [choices] of the three builders. *)
Definition bucket_actions : list string :=
  ["list"; "create"; "get"; "update"; "empty"; "delete"].
Definition file_actions : list string :=
  ["upload"; "download"; "list"; "delete"; "move"; "copy"; "info"; "exists";
   "update"].
Definition url_actions : list string :=
  ["public"; "signed"; "signed-upload"; "signed-urls"].

Definition action (a : Cli.Parsed) : string :=
  match a with
  | Cli.BucketArgs argv => BucketCmd.action argv
  | Cli.FileArgs argv => FileCmd.action argv
  | Cli.UrlArgs argv => UrlCmd.action argv
  end.

Definition known_actions (a : Cli.Parsed) : list string :=
  match a with
  | Cli.BucketArgs _ => bucket_actions
  | Cli.FileArgs _ => file_actions
  | Cli.UrlArgs _ => url_actions
  end.

(** The two tests before the client is built: the key, and for the file
    and url groups the bucket. *)
Definition ready (a : Cli.Parsed) : bool :=
  match a with
  | Cli.BucketArgs argv => Js.truthy_str (BucketCmd.key argv)
  | Cli.FileArgs argv =>
      Js.truthy_str (FileCmd.key argv) && Js.truthy_str (FileCmd.bucket argv)
  | Cli.UrlArgs argv =>
      Js.truthy_str (UrlCmd.key argv) && Js.truthy_str (UrlCmd.bucket argv)
  end.

(** The same arguments with another value of [--json]. *)
Definition with_json (a : Cli.Parsed) (j : bool) : Cli.Parsed :=
  match a with
  | Cli.BucketArgs argv =>
      Cli.BucketArgs
        (BucketCmd.mkArgs (BucketCmd.action argv) (BucketCmd.name argv)
           (BucketCmd.url argv) (BucketCmd.key argv) j (BucketCmd.public argv))
  | Cli.FileArgs argv =>
      Cli.FileArgs
        (FileCmd.mkArgs (FileCmd.action argv) (FileCmd.bucket argv)
           (FileCmd.args argv) (FileCmd.file argv) (FileCmd.path argv)
           (FileCmd.output argv) (FileCmd.from argv) (FileCmd.to argv)
           (FileCmd.prefix argv) (FileCmd.limit argv) (FileCmd.search argv)
           (FileCmd.upsert argv) (FileCmd.url argv) (FileCmd.key argv) j)
  | Cli.UrlArgs argv =>
      Cli.UrlArgs
        (UrlCmd.mkArgs (UrlCmd.action argv) (UrlCmd.bucket argv)
           (UrlCmd.path argv) (UrlCmd.args argv) (UrlCmd.expires argv)
           (UrlCmd.url argv) (UrlCmd.key argv) j (UrlCmd.download argv))
  end.

(** The byte counts on which the doubles of [formatBytes] are exact. *)
Definition exact_count (bytes : N) : Prop :=
  (0 < bytes)%N /\ (100 * bytes < 2 ^ 53)%N.

(** A decimal digit as a string. *)
Definition digit (d : N) : string := String (ascii_of_N (48 + d)) "".

(** A mantissa "rounded to at most two decimal places", read digit by
    digit: what follows the integer part when [fp] hundredths are written
    out.  Nothing for 0; else the point, the tenths, and the hundredths
    unless they are 0. *)
Definition two_decimals (fp : N) : string :=
  if (fp =? 0)%N then ""
  else "." ++ digit (fp / 10)
           ++ (if (fp mod 10 =? 0)%N then "" else digit (fp mod 10)).

(** The lines [listBuckets] prints for one bucket: visibility and name,
    then the size limit when there is one. *)
Definition bucket_lines (b : Bucket) : list string :=
  ("  " ++ (if bucket_public b then "🌐 Public" else "🔒 Private") ++ "  "
        ++ bucket_name b)
  :: match file_size_limit b with
     | Some limit =>
         if (limit =? 0)%N then []
         else [ "    └─ Size Limit: " ++ Utils.formatBytes limit ]
     | None => []
     end.

(** The local paths a run read (or asked the size of), and the local
    paths it wrote, in order. *)
Fixpoint disk_reads (t : list Event) : list string :=
  match t with
  | [] => []
  | FsRead p :: rest => p :: disk_reads rest
  | FsStat p :: rest => p :: disk_reads rest
  | _ :: rest => disk_reads rest
  end.

Fixpoint disk_writes (t : list Event) : list string :=
  match t with
  | [] => []
  | FsWrite p _ :: rest => p :: disk_writes rest
  | _ :: rest => disk_writes rest
  end.

(** A computation that leaves the local disk alone. *)
Definition dry (m : M unit) : Prop :=
  disk_reads (trace m) = [] /\ disk_writes (trace m) = [].

(** What the [file] handler's [switch] does to the disk, action by
    action. *)
Definition file_disk_rule (argv : FileCmd.FileArguments) (m : M unit) : Prop :=
  if FileCmd.action argv =? "download" then
    disk_reads (trace m) = []
    /\ (disk_writes (trace m) = []
        \/ exists p : string,
             FileCmd.actualPath argv = Some p
             /\ disk_writes (trace m)
                = [ Js.or_else (FileCmd.output argv) (NodePath.basename p) ])
  else if (FileCmd.action argv =? "upload") || (FileCmd.action argv =? "update") then
    disk_writes (trace m) = []
    /\ forall p : string, In p (disk_reads (trace m)) -> FileCmd.file argv = Some p
  else dry m.

End Conduct.

(* ================================================================== *)
(** ** Further scenarios                                               *)
(* ================================================================== *)

Module Scenarios.
Import Storage Effects Config.
#[local] Open Scope string_scope.

Definition enoent : JsError := mkError "ENOENT: no such file or directory".
Definition eacces : JsError := mkError "EACCES: permission denied".

(** No local file can be read. *)
Definition unreadable : Platform :=
  {| connect := fun _ _ => Fixtures.ok_client;
     readFileSync := fun _ => Failed enoent;
     statSync := fun _ => Failed enoent;
     writeFileSync := fun _ _ => Ok tt;
     JSON_stringify := fun _ => "{}";
     toLocaleString := fun s => s |}.

(** No local file can be written. *)
Definition unwritable : Platform :=
  {| connect := fun _ _ => Fixtures.ok_client;
     readFileSync := fun _ => Ok [];
     statSync := fun _ => Ok (mkStats 12);
     writeFileSync := fun _ _ => Failed eacces;
     JSON_stringify := fun _ => "{}";
     toLocaleString := fun s => s |}.

Definition two_buckets : list Bucket :=
  [ mkBucket "photos" "photos" true "2024-01-01" "2024-01-02" (Some 1048576%N) None;
    mkBucket "docs" "docs" false "2024-01-01" "2024-01-02" None None ].

(** A service that knows two buckets. *)
Definition listing_client : Client :=
  {| listBuckets := Ok two_buckets;
     createBucket := createBucket Fixtures.ok_client;
     getBucket := getBucket Fixtures.ok_client;
     updateBucket := updateBucket Fixtures.ok_client;
     emptyBucket := emptyBucket Fixtures.ok_client;
     deleteBucket := deleteBucket Fixtures.ok_client;
     upload := upload Fixtures.ok_client;
     download := fun _ _ => Ok [Byte.x68; Byte.x69];
     list_ := list_ Fixtures.ok_client;
     remove := remove Fixtures.ok_client;
     move := move Fixtures.ok_client;
     copy := copy Fixtures.ok_client;
     info := info Fixtures.ok_client;
     exists_ := exists_ Fixtures.ok_client;
     update := update Fixtures.ok_client;
     getPublicUrl := getPublicUrl Fixtures.ok_client;
     createSignedUrl := createSignedUrl Fixtures.ok_client;
     createSignedUploadUrl := createSignedUploadUrl Fixtures.ok_client;
     createSignedUrls := createSignedUrls Fixtures.ok_client |}.

Definition url_flags (u k : option string) : GlobalFlags :=
  mkGlobals u k None.

Definition file_cli (action : string) (limit : option Z) (prefix : option string)
    (g : GlobalFlags) : FileCmd.FileCli :=
  FileCmd.mkCli action "test-bucket" None None None None None None prefix limit
    None None g.

Definition url_cli (action : string) (path : option string) (expires : option Z)
    (g : GlobalFlags) : UrlCmd.UrlCli :=
  UrlCmd.mkCli action "test-bucket" path None expires None g.

Definition move_args (action : string) (from to : string) : FileCmd.FileArguments :=
  {| FileCmd.action := action;
     FileCmd.bucket := "test-bucket";
     FileCmd.args := None;
     FileCmd.file := None;
     FileCmd.path := None;
     FileCmd.output := None;
     FileCmd.from := Some from;
     FileCmd.to := Some to;
     FileCmd.prefix := None;
     FileCmd.limit := 100;
     FileCmd.search := None;
     FileCmd.upsert := false;
     FileCmd.url := Fixtures.local_url;
     FileCmd.key := "test-key";
     FileCmd.json := false |}.

End Scenarios.

(* ================================================================== *)
(** * Properties                                                       *)
(* ================================================================== *)

(** ** Utilities *)

Module UtilsFacts.
Import Js NodePath Utils.
#[local] Open Scope string_scope.

Example formatBytes_500 : formatBytes 500 = "500 B".
Proof. reflexivity. Qed.
Example formatBytes_2621440 : formatBytes 2621440 = "2.5 MB".
Proof. reflexivity. Qed.
Example formatBytes_1TB : formatBytes 1099511627776 = "1 TB".
Proof. reflexivity. Qed.
Example formatBytes_rounds_up : formatBytes 1048575 = "1024 KB".
Proof. reflexivity. Qed.
Example getContentType_multi_dots :
  getContentType "my.photo.backup.jpg" = "image/jpeg".
Proof. reflexivity. Qed.
Example extname_hidden : extname ".bashrc" = "".
Proof. reflexivity. Qed.
Example extname_trailing_dot : extname "file." = ".".
Proof. reflexivity. Qed.
Example basename_local : basename "/local/test.txt" = "test.txt".
Proof. reflexivity. Qed.

(** *** The unit of [formatBytes] *)

Lemma k_pow (i : N) : (k ^ i = 2 ^ (10 * i))%N.
Proof.
  unfold k. change 1024%N with (2 ^ 10)%N. now rewrite <- N.pow_mul_r.
Qed.

Lemma unit_index_bounds (bytes : N) :
  (0 < bytes)%N ->
  (k ^ unit_index bytes <= bytes < k ^ (unit_index bytes + 1))%N.
Proof.
  intros Hpos. unfold unit_index.
  change (N.log2 k) with 10%N.
  destruct (N.log2_spec bytes Hpos) as [Hlo Hhi].
  set (l := N.log2 bytes) in *.
  assert (Hdiv : (10 * (l / 10) <= l)%N) by (apply N.Div0.mul_div_le).
  assert (Hmod : (l < 10 * (l / 10 + 1))%N).
  { pose proof (N.mul_succ_div_gt l 10). rewrite <- N.add_1_r in H. lia. }
  rewrite !k_pow. split.
  - apply N.le_trans with (2 ^ l)%N; [ | exact Hlo ].
    apply N.pow_le_mono_r; lia.
  - apply N.lt_le_trans with (2 ^ N.succ l)%N; [ exact Hhi | ].
    apply N.pow_le_mono_r; lia.
Qed.

Lemma k_pow_pos (i : N) : (0 < k ^ i)%N.
Proof. rewrite k_pow. apply N.neq_0_lt_0, N.pow_nonzero. lia. Qed.

(** *** The rounding of [formatBytes] *)

Lemma hundredths_nearest (bytes i : N) :
  (2 * k ^ i * hundredths bytes i <= 200 * bytes + k ^ i
     < 2 * k ^ i * (hundredths bytes i + 1))%N.
Proof.
  unfold hundredths. pose proof (k_pow_pos i) as Hp.
  set (d := (2 * k ^ i)%N). set (n := (200 * bytes + k ^ i)%N).
  assert (Hd : (d <> 0)%N) by (unfold d; lia).
  split.
  - apply N.Div0.mul_div_le.
  - pose proof (N.mul_succ_div_gt n d Hd). rewrite <- N.add_1_r in H. exact H.
Qed.

(** The digits [fraction] prints are the tenths and, unless 0, the
    hundredths. *)
Lemma fraction_two_decimals (fp : N) :
  (fp < 100)%N -> fraction fp = Conduct.two_decimals fp.
Proof.
  intros H.
  destruct fp as [ | p ]; [ reflexivity | ].
  do 7 (try destruct p as [ p | p | ]); try (exfalso; lia);
    vm_compute; reflexivity.
Qed.

(** C8. [formatBytes] gives ["0 B"] for 0, ["1 KB"] for 1024, ["1.5 KB"]
    for 1536 and ["1 GB"] for 1073741824.  For a positive count on which
    the doubles of the source are exact ([100 * bytes < 2 ^ 53]) the unit
    is the largest power of 1024 not above the count, the mantissa is the
    quotient by that power rounded to the nearest hundredth (halves up),
    and what is printed is the integer part of the mantissa, then, unless
    the hundredths are 0, a point, the tenths digit and the hundredths
    digit unless it is 0, then one space and the name of the unit. *)
Theorem formatBytes_units_and_rounding :
  formatBytes 0 = "0 B"
  /\ formatBytes 1024 = "1 KB"
  /\ formatBytes 1536 = "1.5 KB"
  /\ formatBytes 1073741824 = "1 GB"
  /\ forall bytes : N,
      Conduct.exact_count bytes ->
      let i := unit_index bytes in
      let h := hundredths bytes i in
      formatBytes bytes
        = (string_of_N (h / 100) ++ Conduct.two_decimals (h mod 100))
            ++ " " ++ size_name i
      /\ (k ^ i <= bytes < k ^ (i + 1))%N
      /\ (2 * k ^ i * h <= 200 * bytes + k ^ i < 2 * k ^ i * (h + 1))%N.
Proof.
  split; [ reflexivity | ]. split; [ reflexivity | ].
  split; [ reflexivity | ]. split; [ reflexivity | ].
  intros bytes [Hpos Hexact] i h. split; [ | split ].
  - unfold formatBytes, show_hundredths.
    destruct (N.eqb_spec bytes 0); [ lia | ]. fold i h.
    rewrite fraction_two_decimals; [ reflexivity | ].
    apply N.mod_lt. lia.
  - now apply unit_index_bounds.
  - apply hundredths_nearest.
Qed.

Lemma formatBytes_units_and_rounding_witness :
  formatBytes 1100 = "1.07 KB"
  /\ formatBytes 2621440 = "2.5 MB"
  /\ (k ^ 2 <= 2621440 < k ^ 3)%N.
Proof.
  destruct formatBytes_units_and_rounding as (_ & _ & _ & _ & H).
  assert (Hr : forall b : N,
            (N.ltb 0 b && N.ltb (100 * b) (2 ^ 53))%bool = true ->
            Conduct.exact_count b).
  { intros b Hb. apply andb_prop in Hb as [H0 H1].
    split; apply N.ltb_lt; assumption. }
  destruct (H 1100%N (Hr 1100%N eq_refl)) as (Hkb & _).
  destruct (H 2621440%N (Hr 2621440%N eq_refl)) as (Hmb & Hunit & _).
  split; [ exact Hkb | split; [ exact Hmb | exact Hunit ] ].
Defined.

End UtilsFacts.

Module ContentTypeFacts.
Import Js NodePath Utils.
#[local] Open Scope string_scope.

Lemma lower_char_slash (c : ascii) : is_slash (lower_char c) = is_slash c.
Proof. destruct c as [[] [] [] [] [] [] [] []]; reflexivity. Qed.

Lemma lower_char_dot (c : ascii) : is_dot (lower_char c) = is_dot c.
Proof. destruct c as [[] [] [] [] [] [] [] []]; reflexivity. Qed.

Lemma lower_char_idem (c : ascii) : lower_char (lower_char c) = lower_char c.
Proof. destruct c as [[] [] [] [] [] [] [] []]; reflexivity. Qed.

Lemma ext_step_lower (c : ascii) (i : Z) (st : ExtState) :
  ext_step (lower_char c) i st = ext_step c i st.
Proof. unfold ext_step. now rewrite lower_char_dot. Qed.

(** The scan only looks at which characters are separators and which
    are dots, and lowering a character changes neither. *)
Lemma extname_loop_lower (cs : list ascii) :
  forall i st,
    extname_loop (map lower_char cs) i st = extname_loop cs i st.
Proof.
  induction cs as [ | c rest IH ]; intros i st; simpl.
  - reflexivity.
  - rewrite lower_char_slash, ext_step_lower.
    destruct (is_slash c); [ destruct (negb (matchedSlash st)) | ];
      auto.
Qed.

Lemma slice_map (f : ascii -> ascii) (cs : list ascii) (a b : Z) :
  slice (map f cs) a b = map f (slice cs a b).
Proof. unfold slice. now rewrite skipn_map, firstn_map. Qed.

Lemma extname_chars_lower (cs : list ascii) :
  extname_chars (map lower_char cs) = map lower_char (extname_chars cs).
Proof.
  unfold extname_chars.
  rewrite <- map_rev, length_map, extname_loop_lower.
  destruct (ext_empty _); [ reflexivity | apply slice_map ].
Qed.

Lemma extname_toLowerCase (f : string) :
  extname (toLowerCase f) = toLowerCase (extname f).
Proof.
  unfold extname, toLowerCase.
  now rewrite !list_ascii_of_string_of_list_ascii, extname_chars_lower.
Qed.

Lemma toLowerCase_idem (s : string) : toLowerCase (toLowerCase s) = toLowerCase s.
Proof.
  unfold toLowerCase.
  rewrite list_ascii_of_string_of_list_ascii, map_map.
  f_equal. apply map_ext. exact lower_char_idem.
Qed.

Lemma getContentType_toLowerCase (f : string) :
  getContentType (toLowerCase f) = getContentType f.
Proof.
  unfold getContentType.
  now rewrite extname_toLowerCase, toLowerCase_idem.
Qed.

Lemma lookup_unrecognized (tbl : list (string * string)) (key : string) :
  ~ In key (map fst tbl) -> lookup tbl key = None.
Proof.
  induction tbl as [ | [k' v] rest IH ]; simpl; intros Hnot.
  - reflexivity.
  - destruct (String.eqb_spec k' key) as [ -> | _ ].
    + exfalso. apply Hnot. now left.
    + apply IH. intros Hin. apply Hnot. now right.
Qed.

(** C9. [getContentType] does not depend on the letter case of the file
    name, hence not on that of its extension; it answers
    ["application/octet-stream"] when the lowercased extension is none of
    the ten extensions of the table, and in particular when the name has no
    extension; ["PHOTO.JPG"] is ["image/jpeg"] and ["noextension"] is
    ["application/octet-stream"]. *)
Theorem getContentType_case_insensitive_with_default :
  (forall f g : string,
      toLowerCase (extname f) = toLowerCase (extname g) ->
      getContentType f = getContentType g)
  /\ (forall f g : string,
      toLowerCase f = toLowerCase g -> getContentType f = getContentType g)
  /\ (forall f : string,
      ~ In (toLowerCase (extname f)) recognized ->
      getContentType f = octet_stream)
  /\ (forall f : string, extname f = "" -> getContentType f = octet_stream)
  /\ List.length recognized = 10
  /\ getContentType "PHOTO.JPG" = "image/jpeg"
  /\ getContentType "noextension" = octet_stream.
Proof.
  repeat split.
  - intros f g H. unfold getContentType. now rewrite H.
  - intros f g H.
    rewrite <- (getContentType_toLowerCase f), <- (getContentType_toLowerCase g).
    now rewrite H.
  - intros f H. unfold getContentType.
    now rewrite (lookup_unrecognized mimeTypes _ H).
  - intros f H. unfold getContentType. now rewrite H.
Qed.

Lemma getContentType_case_insensitive_with_default_witness :
  getContentType "Report.PDF" = getContentType "report.pdf"
  /\ getContentType "archive.tar.GZ" = octet_stream
  /\ getContentType "Makefile" = octet_stream.
Proof.
  destruct getContentType_case_insensitive_with_default
    as (_ & Hname & Hdefault & Hnone & _).
  split; [ | split ].
  - apply Hname. reflexivity.
  - apply Hdefault. vm_compute. intuition discriminate.
  - apply Hnone. reflexivity.
Defined.

End ContentTypeFacts.

(** ** The handlers *)

Module HandlerFacts.
Import Storage Effects Common Config Observations.
#[local] Open Scope string_scope.

(** *** The trace projections *)

Lemma calls_app (t1 t2 : list Event) :
  calls (t1 ++ t2)%list = (calls t1 ++ calls t2)%list.
Proof.
  induction t1 as [ | ev t1 IH ]; simpl; [ reflexivity | ].
  destruct ev; simpl; now rewrite IH.
Qed.

Lemma printed_app (ch : Channel) (t1 t2 : list Event) :
  printed ch (t1 ++ t2)%list = (printed ch t1 ++ printed ch t2)%list.
Proof.
  induction t1 as [ | ev t1 IH ]; simpl; [ reflexivity | ].
  destruct ev; simpl; try now rewrite IH.
  destruct ch, ch0; simpl; now rewrite IH.
Qed.

(** *** The credential *)

(** The key the handler sees is the [--key] flag, else the environment
    variable, else the empty string. *)
Lemma resolve_key_fallback (env : ProcessEnv) (g : GlobalFlags) :
  resolve_key env g
  = match flag_key g, STORAGE_SERVICE_KEY env with
    | Some k, _ => k
    | None, Some e => e
    | None, None => ""
    end.
Proof.
  unfold resolve_key, default_key, with_default, Js.or_else, Js.truthy_str.
  destruct (flag_key g); [ reflexivity | ].
  destruct (STORAGE_SERVICE_KEY env) as [ e | ]; [ | reflexivity ].
  destruct (String.eqb_spec e ""); simpl; congruence.
Qed.

(** C5. Whatever the command group, when the resolved credential is
    empty the run consists of the error line and the guidance line and
    ends with status 1: no client is built and no client operation is
    invoked. *)
Theorem missing_credential_fails_fast
    (P : Platform) (env : ProcessEnv) (inv : Cli.Invocation) :
  resolve_key env (Cli.globals inv) = "" ->
  trace (Cli.run P env inv)
    = [ Print ErrorCh "Storage key not set";
        Print InfoCh "Set STORAGE_SERVICE_KEY or use --key option" ]
  /\ exit_status (Cli.run P env inv) = 1%Z
  /\ calls (trace (Cli.run P env inv)) = [].
Proof.
  intros Hkey.
  assert (Hrun : Cli.run P env inv = key_missing).
  { destruct inv as [ c | c | c ]; simpl in Hkey;
      unfold Cli.run, Cli.builder, Cli.handler,
        BucketCmd.handler, FileCmd.handler, UrlCmd.handler; simpl;
      rewrite Hkey; reflexivity. }
  rewrite Hrun. repeat split.
Qed.

Lemma missing_credential_fails_fast_witness :
  exit_status
    (Cli.run (Fixtures.platform Fixtures.ok_client) Fixtures.no_env
       (Cli.File (FileCmd.mkCli "list" "test-bucket" None None None None None
                    None None None None None (mkGlobals None None None))))
  = 1%Z.
Proof.
  apply (missing_credential_fails_fast
           (Fixtures.platform Fixtures.ok_client) Fixtures.no_env
           (Cli.File (FileCmd.mkCli "list" "test-bucket" None None None None None
                        None None None None None (mkGlobals None None None)))).
  reflexivity.
Defined.


(** *** Bucket visibility *)

(** C3. [bucket update] without [--public] ends with status 1 and calls
    nothing, with the message about the flag once a key and a name are
    there; [bucket create] without [--public] issues one client call,
    [createBucket name { public: false }], and when the service accepts
    it the run reports the creation and ends with status 0. *)
Theorem bucket_update_needs_public_create_defaults_private
    (P : Platform) (argv : BucketCmd.BucketArguments) :
  BucketCmd.public argv = None ->
  (BucketCmd.action argv = "update" ->
     exit_status (BucketCmd.handler P argv) = 1%Z
     /\ calls (trace (BucketCmd.handler P argv)) = []
     /\ (Js.truthy_str (BucketCmd.key argv) = true ->
         Js.truthy (BucketCmd.name argv) = true ->
         printed ErrorCh (trace (BucketCmd.handler P argv))
           = [ "--public flag required for update" ]))
  /\ (forall n : string,
       BucketCmd.action argv = "create" ->
       Js.truthy_str (BucketCmd.key argv) = true ->
       BucketCmd.name argv = Some n ->
       Js.truthy_str n = true ->
       calls (trace (BucketCmd.handler P argv)) = [ CreateBucket n false ]
       /\ (forall created : string,
            createBucket (connect P (BucketCmd.url argv) (BucketCmd.key argv))
                         n false = Ok created ->
            exit_status (BucketCmd.handler P argv) = 0%Z
            /\ printed SuccessCh (trace (BucketCmd.handler P argv))
               = [ "Bucket created: " ++ n ])).
Proof.
  destruct argv as [action name url key json public]; simpl.
  intros ->. split.
  - intros ->. unfold BucketCmd.handler, BucketCmd.dispatch; simpl.
    destruct (Js.truthy_str key); simpl.
    + destruct name as [ n | ]; simpl.
      * destruct (Js.truthy_str n); simpl; repeat split; discriminate.
      * repeat split; discriminate.
    + repeat split; discriminate.
  - intros n -> Hkey -> Hn.
    unfold BucketCmd.handler, BucketCmd.dispatch; simpl.
    rewrite Hkey, Hn; simpl.
    unfold BucketCmd.createBucket; simpl.
    destruct (createBucket (connect P url key) n false) as [ d | e ] eqn:E;
      simpl.
    + destruct json; simpl; split; try reflexivity;
        intros created _; split; reflexivity.
    + split; [ reflexivity | discriminate ].
Qed.


Lemma bucket_update_needs_public_create_defaults_private_witness :
  exit_status
    (BucketCmd.handler (Fixtures.platform Fixtures.ok_client)
       (Fixtures.bucket_args "update" (Some "photos") None)) = 1%Z
  /\ calls (trace
       (BucketCmd.handler (Fixtures.platform Fixtures.ok_client)
          (Fixtures.bucket_args "create" (Some "photos") None)))
     = [ CreateBucket "photos" false ].
Proof.
  split.
  - apply (proj1 (bucket_update_needs_public_create_defaults_private
                    (Fixtures.platform Fixtures.ok_client)
                    (Fixtures.bucket_args "update" (Some "photos") None)
                    eq_refl) eq_refl).
  - apply (proj2 (bucket_update_needs_public_create_defaults_private
                    (Fixtures.platform Fixtures.ok_client)
                    (Fixtures.bucket_args "create" (Some "photos") None)
                    eq_refl) "photos" eq_refl eq_refl eq_refl eq_refl).
Defined.

(** *** Missing arguments *)

Lemma require_falsy {A} (x : option string) (msg : string) (k : string -> M A) :
  Js.truthy x = false ->
  bind (require x msg) k = throw msg.
Proof.
  unfold require. destruct x as [ s | ]; simpl; [ | reflexivity ].
  now intros ->.
Qed.

Lemma require_truthy {A} (x : option string) (msg : string) (k : string -> M A) :
  Js.truthy x = true ->
  exists s, x = Some s /\ Js.truthy_str s = true /\ bind (require x msg) k = k s.
Proof.
  unfold require. destruct x as [ s | ]; simpl; [ | discriminate ].
  intros H. exists s. rewrite H. simpl. destruct (k s). auto.
Qed.

Lemma or_opt_falsy (a b : option string) :
  Js.truthy a = false -> Js.truthy b = false -> Js.truthy (Js.or_opt a b) = false.
Proof. unfold Js.or_opt. now intros -> ->. Qed.

(** Decide the [switch] once the action is known. *)
Ltac pick_case :=
  cbn [String.eqb Ascii.eqb Bool.eqb].

Ltac split_actions H :=
  simpl in H;
  repeat match type of H with
         | _ \/ _ => destruct H as [ H | H ]
         | False => destruct H
         end;
  try (rewrite <- H; pick_case).

(** A failed validation makes the handler's [switch] throw at once. *)
Lemma bucket_dispatch_missing (P : Platform) (c : Client)
    (argv : BucketCmd.BucketArguments) (msg : string) :
  Requirements.missing (Cli.BucketArgs argv) msg ->
  BucketCmd.dispatch P c argv = throw msg.
Proof.
  intros Hmiss.
  inversion Hmiss as [ a Hact Hname | a Hact Hname Hpub | | | | | | | | | | | | ];
    subst; unfold BucketCmd.dispatch.
  - split_actions Hact; now apply require_falsy.
  - rewrite Hact; pick_case.
    destruct (require_truthy (A := unit) _ "Bucket name required"
                (fun n => BucketCmd.updateBucket P c n
                            (BucketCmd.public argv) (BucketCmd.json argv)) Hname)
      as (n & _ & _ & ->).
    unfold BucketCmd.updateBucket. now rewrite Hpub.
Qed.

Lemma file_dispatch_missing (P : Platform) (c : Client)
    (argv : FileCmd.FileArguments) (msg : string) :
  Js.truthy_str (FileCmd.bucket argv) = true ->
  Requirements.missing (Cli.FileArgs argv) msg ->
  FileCmd.dispatch P c argv = throw msg.
Proof.
  intros Hbucket Hmiss.
  inversion Hmiss
    as [ | | a Hb | a Hb Hact Hfile | a Hb Hact Hfile Hpath
         | a Hb Hact Hpath Harg | a Hb Hact Hpath Harg | a Hb Hact Hargs
         | a Hb Hact Hft | | | | | ];
    subst; unfold FileCmd.dispatch, FileCmd.actualPath.
  - congruence.
  - split_actions Hact; now apply require_falsy.
  - rewrite Hact; pick_case.
    destruct (require_truthy (A := unit) _ "File path required (use --file)"
                (fun f =>
                   bind (require (FileCmd.path argv)
                           "Remote path required (use --path to specify destination)")
                        (fun remotePath =>
                           FileCmd.updateFile P c (FileCmd.bucket argv) f remotePath
                             (FileCmd.upsert argv) (FileCmd.json argv)))
                Hfile) as (f & _ & _ & ->).
    now apply require_falsy.
  - rewrite Hact; pick_case. apply require_falsy. now apply or_opt_falsy.
  - split_actions Hact; apply require_falsy; now apply or_opt_falsy.
  - rewrite Hact; pick_case. now rewrite Hargs.
  - split_actions Hact.
    all: destruct Hft as [ Hfrom | Hto ]; [ now apply require_falsy | ].
    all: destruct (Js.truthy (FileCmd.from argv)) eqn:Hfrom;
      [ | now apply require_falsy ].
    + destruct (require_truthy (A := unit) _ "Both --from and --to required"
                  (fun f =>
                     bind (require (FileCmd.to argv) "Both --from and --to required")
                          (fun t => FileCmd.moveFile P c (FileCmd.bucket argv) f t
                                      (FileCmd.json argv)))
                  Hfrom) as (f & _ & _ & ->).
      now apply require_falsy.
    + destruct (require_truthy (A := unit) _ "Both --from and --to required"
                  (fun f =>
                     bind (require (FileCmd.to argv) "Both --from and --to required")
                          (fun t => FileCmd.copyFile P c (FileCmd.bucket argv) f t
                                      (FileCmd.json argv)))
                  Hfrom) as (f & _ & _ & ->).
      now apply require_falsy.
Qed.

Lemma url_paths_missing (argv : UrlCmd.UrlArguments) :
  Js.truthy (UrlCmd.path argv) = false ->
  Js.or_nil (UrlCmd.args argv) = [] ->
  UrlCmd.all_paths argv = [].
Proof.
  unfold UrlCmd.all_paths. intros Hpath ->.
  destruct (UrlCmd.path argv) as [ p | ]; simpl in *; [ | reflexivity ].
  now rewrite Hpath.
Qed.

Lemma url_dispatch_missing (P : Platform) (c : Client)
    (argv : UrlCmd.UrlArguments) (msg : string) :
  Js.truthy_str (UrlCmd.bucket argv) = true ->
  Requirements.missing (Cli.UrlArgs argv) msg ->
  UrlCmd.dispatch P c argv = throw msg.
Proof.
  intros Hbucket Hmiss.
  inversion Hmiss
    as [ | | | | | | | | | a Hb | a Hb Hact Hpath | a Hb Hact Hpath
         | a Hb Hact Hpath | a Hb Hact Hpath Hargs ];
    subst; unfold UrlCmd.dispatch.
  - congruence.
  - rewrite Hact; pick_case. now apply require_falsy.
  - rewrite Hact; pick_case. now apply require_falsy.
  - rewrite Hact; pick_case. now apply require_falsy.
  - rewrite Hact; pick_case. now rewrite url_paths_missing.
Qed.

(** C4. With a credential present, an invocation that lacks an argument
    its action requires ends with status 1, prints on the error channel
    exactly the message naming that argument, and invokes no client
    operation. *)
Theorem missing_argument_exits_without_client_call
    (P : Platform) (a : Cli.Parsed) (msg : string) :
  Js.truthy_str (Cli.key a) = true ->
  Requirements.missing a msg ->
  outcome (Cli.handler P a) = Exit 1
  /\ printed ErrorCh (trace (Cli.handler P a)) = [ msg ]
  /\ calls (trace (Cli.handler P a)) = [].
Proof.
  intros Hkey Hmiss.
  destruct a as [ argv | argv | argv ]; simpl in *.
  - unfold BucketCmd.handler. rewrite Hkey; simpl.
    rewrite (bucket_dispatch_missing P _ argv msg Hmiss).
    repeat split.
  - unfold FileCmd.handler. rewrite Hkey; simpl.
    destruct (Js.truthy_str (FileCmd.bucket argv)) eqn:Hbucket; simpl.
    + rewrite (file_dispatch_missing P _ argv msg Hbucket Hmiss).
      repeat split.
    + inversion Hmiss; subst; try congruence. repeat split.
  - unfold UrlCmd.handler. rewrite Hkey; simpl.
    destruct (Js.truthy_str (UrlCmd.bucket argv)) eqn:Hbucket; simpl.
    + rewrite (url_dispatch_missing P _ argv msg Hbucket Hmiss).
      repeat split.
    + inversion Hmiss; subst; try congruence. repeat split.
Qed.


Lemma missing_argument_exits_without_client_call_witness :
  outcome (Cli.handler (Fixtures.platform Fixtures.ok_client)
             (Cli.FileArgs (Fixtures.file_args "delete" None None None false)))
    = Exit 1
  /\ printed ErrorCh
       (trace (Cli.handler (Fixtures.platform Fixtures.ok_client)
                 (Cli.FileArgs (Fixtures.file_args "delete" None None None false))))
     = [ "At least one path required" ]
  /\ calls
       (trace (Cli.handler (Fixtures.platform Fixtures.ok_client)
                 (Cli.FileArgs (Fixtures.file_args "delete" None None None false))))
     = [].
Proof.
  apply missing_argument_exits_without_client_call.
  - reflexivity.
  - apply Requirements.file_delete_paths; reflexivity.
Defined.


(** *** One request per operation *)

Lemma calls_log (ch : Channel) (msgs : list string) :
  calls (map (Print ch) msgs) = [].
Proof. induction msgs; simpl; auto. Qed.

Lemma printed_error_log (msgs : list string) :
  printed ErrorCh (map (Print LogCh) msgs) = [].
Proof. induction msgs; simpl; auto. Qed.

Lemma forEach_log_only {A} (f : A -> M unit) (xs : list A) :
  (forall x, log_only (f x)) -> log_only (forEach xs f).
Proof.
  intros Hf. induction xs as [ | x rest [ms IH] ]; simpl.
  - now exists [].
  - destruct (Hf x) as [m Hx]. exists (m ++ ms)%list.
    unfold bind. rewrite Hx, IH, map_app. reflexivity.
Qed.

Ltac log_lines :=
  first [ exists []; reflexivity
        | eexists [_]; reflexivity
        | eexists [_; _]; reflexivity ].

Lemma show_bucket_log_only (b : Bucket) : log_only (BucketCmd.show_bucket b).
Proof.
  unfold BucketCmd.show_bucket, when_num, truthy_num.
  destruct (file_size_limit b) as [ n | ]; [ destruct (negb (n =? 0)%N) | ];
    log_lines.
Qed.

Lemma show_file_log_only (P : Platform) (f : FileObject) :
  log_only (FileCmd.show_file P f).
Proof.
  unfold FileCmd.show_file.
  destruct (fo_updated_at f) as [ u | ]; [ destruct (Js.truthy_str u) | ];
    log_lines.
Qed.

Lemma show_deleted_log_only (f : FileObject) : log_only (FileCmd.show_deleted f).
Proof. unfold FileCmd.show_deleted. log_lines. Qed.

Lemma report_item_log_only (item : SignedUrlItem) :
  log_only (UrlCmd.report_item item).
Proof.
  unfold UrlCmd.report_item. destruct (UrlCmd.has_error item); log_lines.
Qed.

(** Replace every [forEach] of the goal by the lines it prints. *)
Ltac name_lines :=
  repeat match goal with
    | |- context [ forEach ?xs BucketCmd.show_bucket ] =>
        let ms := fresh "lines" in
        destruct (forEach_log_only _ xs show_bucket_log_only) as [ms ->]
    | |- context [ forEach ?xs (FileCmd.show_file ?P) ] =>
        let ms := fresh "lines" in
        destruct (forEach_log_only _ xs (show_file_log_only P)) as [ms ->]
    | |- context [ forEach ?xs FileCmd.show_deleted ] =>
        let ms := fresh "lines" in
        destruct (forEach_log_only _ xs show_deleted_log_only) as [ms ->]
    | |- context [ forEach ?xs UrlCmd.report_item ] =>
        let ms := fresh "lines" in
        destruct (forEach_log_only _ xs report_item_log_only) as [ms ->]
    end.

(** Split on whatever the run still waits for: an answer of the service
    or of the file system, a flag, an optional field. *)
Ltac split_step :=
  first
    [ progress name_lines
    | match goal with
      | |- context [ match ?x with _ => _ end ] =>
          let T := type of x in
          let T' := eval hnf in T in
          lazymatch T' with
          | prod (list Event) _ => fail
          | Result _ => destruct x eqn:?
          | prod bool _ => destruct x as [ [ | ] ? ] eqn:?
          | _ => destruct x
          end
      end ];
  simpl.

Ltac run_op :=
  unfold FileCmd.fs_readFileSync, FileCmd.fs_statSync, FileCmd.fs_writeFileSync,
    when_num, truthy_num, when, await, unwrap, bind;
  simpl; repeat split_step.

(** Close an [answers] goal. *)
Ltac close_answers :=
  unfold answers; run_op;
  rewrite ?calls_app, ?printed_app, ?calls_log, ?printed_error_log; simpl;
  repeat split; try reflexivity;
  intros; simpl in *;
  repeat match goal with
    | E : ?x = _, H : context [ ?x ] |- _ => rewrite E in H; simpl in H
    end;
  congruence.

Lemma listBuckets_answers (P : Platform) (c : Client) (json : bool) :
  answers c ListBuckets (BucketCmd.listBuckets P c json).
Proof. unfold BucketCmd.listBuckets. close_answers. Qed.

Lemma createBucket_answers (P : Platform) (c : Client) (name : string)
    (isPublic : option bool) (json : bool) :
  answers c (CreateBucket name (with_default isPublic false))
    (BucketCmd.createBucket P c name isPublic json).
Proof.
  unfold BucketCmd.createBucket. cbv zeta.
  generalize (with_default isPublic false) as pub; intros pub.
  close_answers.
Qed.

Lemma getBucket_answers (P : Platform) (c : Client) (name : string) (json : bool) :
  answers c (GetBucket name) (BucketCmd.getBucket P c name json).
Proof. unfold BucketCmd.getBucket. close_answers. Qed.

Lemma updateBucket_answers (P : Platform) (c : Client) (name : string)
    (isPublic json : bool) :
  answers c (UpdateBucket name isPublic)
    (BucketCmd.updateBucket P c name (Some isPublic) json).
Proof. unfold BucketCmd.updateBucket. close_answers. Qed.

Lemma emptyBucket_answers (c : Client) (name : string) :
  answers c (EmptyBucket name) (BucketCmd.emptyBucket c name).
Proof. unfold BucketCmd.emptyBucket. close_answers. Qed.

Lemma deleteBucket_answers (c : Client) (name : string) :
  answers c (DeleteBucket name) (BucketCmd.deleteBucket c name).
Proof. unfold BucketCmd.deleteBucket. close_answers. Qed.

Lemma uploadFile_answers (P : Platform) (c : Client) (bucket filePath : string)
    (remotePath : option string) (upsert json : bool) (body : Buffer) (st : Stats) :
  readFileSync P filePath = Ok body ->
  statSync P filePath = Ok st ->
  answers c
    (Upload bucket (Js.or_else remotePath (NodePath.basename filePath)) body
            (mkFileOptions upsert (Utils.getContentType filePath)))
    (FileCmd.uploadFile P c bucket filePath remotePath upsert json).
Proof.
  intros Hread Hstat.
  unfold FileCmd.uploadFile, FileCmd.fs_readFileSync, FileCmd.fs_statSync.
  rewrite Hread, Hstat. cbv zeta.
  generalize (Js.or_else remotePath (NodePath.basename filePath)) as fileName;
    intros fileName.
  generalize (Utils.getContentType filePath) as ctype; intros ctype.
  close_answers.
Qed.

Lemma updateFile_answers (P : Platform) (c : Client)
    (bucket filePath remotePath : string) (upsert json : bool)
    (body : Buffer) (st : Stats) :
  readFileSync P filePath = Ok body ->
  statSync P filePath = Ok st ->
  answers c
    (Update bucket remotePath body
            (mkFileOptions upsert (Utils.getContentType filePath)))
    (FileCmd.updateFile P c bucket filePath remotePath upsert json).
Proof.
  intros Hread Hstat.
  unfold FileCmd.updateFile, FileCmd.fs_readFileSync, FileCmd.fs_statSync.
  rewrite Hread, Hstat. cbv zeta.
  generalize (Utils.getContentType filePath) as ctype; intros ctype.
  close_answers.
Qed.

Lemma downloadFile_answers (P : Platform) (c : Client) (bucket remotePath : string)
    (output : option string) (json : bool) :
  answers c (DownloadFile bucket remotePath)
    (FileCmd.downloadFile P c bucket remotePath output json).
Proof. unfold FileCmd.downloadFile. close_answers. Qed.

Lemma listFiles_answers (P : Platform) (c : Client) (bucket : string)
    (prefix : option string) (limit : Z) (search : option string) (json : bool) :
  answers c (ListFiles bucket (Js.or_else prefix "") limit search)
    (FileCmd.listFiles P c bucket prefix limit search json).
Proof.
  unfold FileCmd.listFiles. cbv zeta.
  generalize (Js.or_else prefix "") at 1 2 3 as dir; intros dir.
  close_answers.
Qed.

Lemma deleteFiles_answers (P : Platform) (c : Client) (bucket : string)
    (paths : list string) (json : bool) :
  answers c (Remove bucket paths) (FileCmd.deleteFiles P c bucket paths json).
Proof. unfold FileCmd.deleteFiles. close_answers. Qed.

Lemma moveFile_answers (P : Platform) (c : Client) (bucket from to : string)
    (json : bool) :
  answers c (Move bucket from to) (FileCmd.moveFile P c bucket from to json).
Proof. unfold FileCmd.moveFile. close_answers. Qed.

Lemma copyFile_answers (P : Platform) (c : Client) (bucket from to : string)
    (json : bool) :
  answers c (Copy bucket from to) (FileCmd.copyFile P c bucket from to json).
Proof. unfold FileCmd.copyFile. close_answers. Qed.

Lemma getFileInfo_answers (P : Platform) (c : Client) (bucket filePath : string)
    (json : bool) :
  answers c (Info bucket filePath) (FileCmd.getFileInfo P c bucket filePath json).
Proof. unfold FileCmd.getFileInfo. close_answers. Qed.

Lemma checkFileExists_answers (P : Platform) (c : Client) (bucket filePath : string)
    (json : bool) :
  answers c (Exists bucket filePath)
    (FileCmd.checkFileExists P c bucket filePath json).
Proof. unfold FileCmd.checkFileExists. close_answers. Qed.

Lemma getPublicUrl_answers (P : Platform) (c : Client) (bucket filePath : string)
    (download : option Download) (json : bool) :
  answers c (GetPublicUrl bucket filePath download)
    (UrlCmd.getPublicUrl P c bucket filePath download json).
Proof. unfold UrlCmd.getPublicUrl. close_answers. Qed.

Lemma getSignedUrl_answers (P : Platform) (c : Client) (bucket filePath : string)
    (expiresIn : Z) (download : option Download) (json : bool) :
  answers c (CreateSignedUrl bucket filePath expiresIn download)
    (UrlCmd.getSignedUrl P c bucket filePath expiresIn download json).
Proof. unfold UrlCmd.getSignedUrl. close_answers. Qed.

Lemma getSignedUploadUrl_answers (P : Platform) (c : Client)
    (bucket filePath : string) (json : bool) :
  answers c (CreateSignedUploadUrl bucket filePath)
    (UrlCmd.getSignedUploadUrl P c bucket filePath json).
Proof. unfold UrlCmd.getSignedUploadUrl. close_answers. Qed.

Lemma getSignedUrls_answers (P : Platform) (c : Client) (bucket : string)
    (filePaths : list string) (expiresIn : Z) (download : option Download)
    (json : bool) :
  answers c (CreateSignedUrls bucket filePaths expiresIn download)
    (UrlCmd.getSignedUrls P c bucket filePaths expiresIn download json).
Proof. unfold UrlCmd.getSignedUrls. close_answers. Qed.


(** *** From the operations to the handlers *)

Lemma answers_reports (c : Client) (rq : Request) (m : M unit) :
  answers c rq m -> reports_failures c m.
Proof.
  intros (Hcalls & Hquiet & Hthrow). split; [ exact Hquiet | ].
  intros rq' e Hin. rewrite Hcalls in Hin.
  destruct Hin as [ <- | [] ]. apply Hthrow.
Qed.

Lemma bind_ret {A B} (a : A) (k : A -> M B) : bind (ret a) k = k a.
Proof. unfold bind, ret. now destruct (k a). Qed.

Lemma throw_reports (c : Client) (msg : string) : reports_failures c (throw msg).
Proof. split; [ reflexivity | intros rq e [] ]. Qed.

Lemma require_reports (c : Client) (x : option string) (msg : string)
    (k : string -> M unit) :
  (forall s, reports_failures c (k s)) ->
  reports_failures c (bind (require x msg) k).
Proof.
  intros Hk. unfold require.
  destruct x as [ s | ]; [ destruct (Js.truthy_str s) | ];
    try apply throw_reports.
  rewrite bind_ret. apply Hk.
Qed.

(** Reading the local file may fail before anything is sent. *)
Lemma uploadFile_reports (P : Platform) (c : Client) (bucket filePath : string)
    (remotePath : option string) (upsert json : bool) :
  reports_failures c (FileCmd.uploadFile P c bucket filePath remotePath upsert json).
Proof.
  destruct (readFileSync P filePath) as [ body | e1 ] eqn:Hread;
    [ destruct (statSync P filePath) as [ st | e2 ] eqn:Hstat | ].
  - eapply answers_reports, uploadFile_answers; eassumption.
  - unfold FileCmd.uploadFile, FileCmd.fs_readFileSync, FileCmd.fs_statSync.
    rewrite Hread, Hstat. split; [ reflexivity | intros rq e [] ].
  - unfold FileCmd.uploadFile, FileCmd.fs_readFileSync.
    rewrite Hread. split; [ reflexivity | intros rq e [] ].
Qed.

Lemma updateFile_reports (P : Platform) (c : Client)
    (bucket filePath remotePath : string) (upsert json : bool) :
  reports_failures c (FileCmd.updateFile P c bucket filePath remotePath upsert json).
Proof.
  destruct (readFileSync P filePath) as [ body | e1 ] eqn:Hread;
    [ destruct (statSync P filePath) as [ st | e2 ] eqn:Hstat | ].
  - eapply answers_reports, updateFile_answers; eassumption.
  - unfold FileCmd.updateFile, FileCmd.fs_readFileSync, FileCmd.fs_statSync.
    rewrite Hread, Hstat. split; [ reflexivity | intros rq e [] ].
  - unfold FileCmd.updateFile, FileCmd.fs_readFileSync.
    rewrite Hread. split; [ reflexivity | intros rq e [] ].
Qed.

Create HintDb ops.

#[local] Hint Resolve throw_reports uploadFile_reports updateFile_reports : ops.
#[local] Hint Extern 1 (reports_failures _ _) =>
  eapply answers_reports;
  first [ apply listBuckets_answers | apply createBucket_answers
        | apply getBucket_answers | apply updateBucket_answers
        | apply emptyBucket_answers | apply deleteBucket_answers
        | apply downloadFile_answers | apply listFiles_answers
        | apply deleteFiles_answers | apply moveFile_answers
        | apply copyFile_answers | apply getFileInfo_answers
        | apply checkFileExists_answers | apply getPublicUrl_answers
        | apply getSignedUrl_answers | apply getSignedUploadUrl_answers
        | apply getSignedUrls_answers ] : ops.

(** Walk down the [switch]: every case either throws or runs one
    operation. *)
Ltac walk_switch :=
  repeat match goal with
    | |- reports_failures _ (if ?b then _ else _) => destruct b
    | |- reports_failures _ (bind (require _ _) _) =>
        apply require_reports; intros ?
    end;
  auto with ops.

Lemma bucket_dispatch_reports (P : Platform) (c : Client)
    (argv : BucketCmd.BucketArguments) :
  reports_failures c (BucketCmd.dispatch P c argv).
Proof.
  unfold BucketCmd.dispatch; cbv zeta. walk_switch.
  unfold BucketCmd.updateBucket.
  destruct (BucketCmd.public argv) as [ isPublic | ]; [ | apply throw_reports ].
  eapply answers_reports, (updateBucket_answers P c s isPublic).
Qed.

Lemma file_dispatch_reports (P : Platform) (c : Client)
    (argv : FileCmd.FileArguments) :
  reports_failures c (FileCmd.dispatch P c argv).
Proof. unfold FileCmd.dispatch; cbv zeta. walk_switch. Qed.

Lemma url_dispatch_reports (P : Platform) (c : Client)
    (argv : UrlCmd.UrlArguments) :
  reports_failures c (UrlCmd.dispatch P c argv).
Proof. unfold UrlCmd.dispatch; cbv zeta. walk_switch. Qed.

(** The [catch] block turns a thrown error into one line on the error
    channel and status 1. *)
Lemma try_catch_throw (m : M unit) (e : JsError) :
  outcome m = Throw e ->
  try_catch m report_and_exit
  = ((trace m ++ [ Print ErrorCh (message e) ])%list, Exit 1).
Proof. destruct m as [ t o ]; simpl. now intros ->. Qed.

Lemma calls_try_catch (m : M unit) :
  calls (trace (try_catch m report_and_exit)) = calls (trace m).
Proof.
  destruct m as [ t [ a | e | code ] ]; simpl; try reflexivity.
  rewrite calls_app; simpl. apply app_nil_r.
Qed.

Lemma guarded_calls (P : Platform) (url key : string) (body : Client -> M unit) :
  calls (trace (guarded P url key body))
  = calls (trace (body (connect P url key))).
Proof.
  unfold guarded, getStorageClient, bind; simpl.
  rewrite <- (calls_try_catch (body (connect P url key))).
  destruct (try_catch (body (connect P url key)) report_and_exit); reflexivity.
Qed.

Lemma guarded_reports (P : Platform) (url key : string) (body : Client -> M unit)
    (rq : Request) (e : JsError) :
  reports_failures (connect P url key) (body (connect P url key)) ->
  In rq (calls (trace (guarded P url key body))) ->
  response_error (connect P url key) rq = Some e ->
  is_exists rq = false ->
  outcome (guarded P url key body) = Exit 1
  /\ printed ErrorCh (trace (guarded P url key body)) = [ message e ].
Proof.
  intros [Hquiet Hthrow] Hin Herr Hex.
  rewrite guarded_calls in Hin.
  pose proof (Hthrow rq e Hin Herr Hex) as Hout.
  unfold guarded, getStorageClient, bind; simpl.
  rewrite (try_catch_throw _ e Hout); simpl.
  rewrite printed_app, Hquiet. split; reflexivity.
Qed.

Lemma bucket_handler_guarded (P : Platform) (argv : BucketCmd.BucketArguments) :
  Js.truthy_str (BucketCmd.key argv) = true ->
  BucketCmd.handler P argv
  = guarded P (BucketCmd.url argv) (BucketCmd.key argv)
      (fun client => BucketCmd.dispatch P client argv).
Proof. unfold BucketCmd.handler. now intros ->. Qed.

Lemma file_handler_guarded (P : Platform) (argv : FileCmd.FileArguments) :
  Js.truthy_str (FileCmd.key argv) = true ->
  Js.truthy_str (FileCmd.bucket argv) = true ->
  FileCmd.handler P argv
  = guarded P (FileCmd.url argv) (FileCmd.key argv)
      (fun client => FileCmd.dispatch P client argv).
Proof. unfold FileCmd.handler. now intros -> ->. Qed.

Lemma url_handler_guarded (P : Platform) (argv : UrlCmd.UrlArguments) :
  Js.truthy_str (UrlCmd.key argv) = true ->
  Js.truthy_str (UrlCmd.bucket argv) = true ->
  UrlCmd.handler P argv
  = guarded P (UrlCmd.url argv) (UrlCmd.key argv)
      (fun client => UrlCmd.dispatch P client argv).
Proof. unfold UrlCmd.handler. now intros -> ->. Qed.

(** *** Errors of the service *)

Lemma handler_reports_failure (P : Platform) (a : Cli.Parsed)
    (rq : Request) (e : JsError) :
  In rq (calls (trace (Cli.handler P a))) ->
  response_error (Cli.client P a) rq = Some e ->
  is_exists rq = false ->
  outcome (Cli.handler P a) = Exit 1
  /\ printed ErrorCh (trace (Cli.handler P a)) = [ message e ].
Proof.
  destruct a as [ argv | argv | argv ]; unfold Cli.client; simpl.
  - destruct (Js.truthy_str (BucketCmd.key argv)) eqn:Hkey.
    + rewrite (bucket_handler_guarded P argv Hkey).
      apply guarded_reports, bucket_dispatch_reports.
    + unfold BucketCmd.handler. rewrite Hkey. intros [].
  - destruct (Js.truthy_str (FileCmd.key argv)) eqn:Hkey;
      [ destruct (Js.truthy_str (FileCmd.bucket argv)) eqn:Hbucket | ].
    + rewrite (file_handler_guarded P argv Hkey Hbucket).
      apply guarded_reports, file_dispatch_reports.
    + unfold FileCmd.handler. rewrite Hkey, Hbucket. intros [].
    + unfold FileCmd.handler. rewrite Hkey. intros [].
  - destruct (Js.truthy_str (UrlCmd.key argv)) eqn:Hkey;
      [ destruct (Js.truthy_str (UrlCmd.bucket argv)) eqn:Hbucket | ].
    + rewrite (url_handler_guarded P argv Hkey Hbucket).
      apply guarded_reports, url_dispatch_reports.
    + unfold UrlCmd.handler. rewrite Hkey, Hbucket. intros [].
    + unfold UrlCmd.handler. rewrite Hkey. intros [].
Qed.

(** C1, as the code has it.  Whatever the command group, the action and
    the [--json] flag: when a client operation the handler invoked answers
    with an error, the handler prints the message of that error, and nothing
    else, on the error channel and the process ends with status 1; the one
    exception is [exists].  [file exists] never raises what [client.exists]
    answers: the run is the client construction, the call and one line (the
    JSON object holding [data] and the error message under [--json],
    otherwise the "exists" or "does not exist" line chosen by [data] alone),
    and the handler returns. *)
Theorem service_error_exits_except_exists (P : Platform) (a : Cli.Parsed) :
  (forall (rq : Request) (e : JsError),
      In rq (calls (trace (Cli.handler P a))) ->
      response_error (Cli.client P a) rq = Some e ->
      is_exists rq = false ->
      exit_status (Cli.handler P a) = 1%Z
      /\ printed ErrorCh (trace (Cli.handler P a)) = [ message e ])
  /\ (forall (argv : FileCmd.FileArguments) (p : string),
      a = Cli.FileArgs argv ->
      FileCmd.action argv = "exists" ->
      Js.truthy_str (FileCmd.key argv) = true ->
      Js.truthy_str (FileCmd.bucket argv) = true ->
      FileCmd.actualPath argv = Some p ->
      Js.truthy_str p = true ->
      Cli.handler P a
      = ([ NewClient (FileCmd.url argv) (FileCmd.key argv);
           Call (Exists (FileCmd.bucket argv) p);
           exists_report P (FileCmd.json argv) p
             (exists_ (Cli.client P a) (FileCmd.bucket argv) p) ],
         Ret tt)).
Proof.
  split.
  - intros rq e Hin Herr Hex.
    destruct (handler_reports_failure P a rq e Hin Herr Hex) as [Hout Hprint].
    split; [ | exact Hprint ].
    unfold exit_status. now rewrite Hout.
  - intros argv p -> Hact Hkey Hbucket Hpath Hp. simpl.
    rewrite (file_handler_guarded P argv Hkey Hbucket).
    unfold guarded, FileCmd.dispatch, Cli.client; simpl.
    rewrite Hact; pick_case. rewrite Hpath.
    unfold require. rewrite Hp.
    unfold FileCmd.checkFileExists, exists_report, await; simpl.
    destruct (exists_ _ _ p) as [ [ | ] error ];
      destruct (FileCmd.json argv); reflexivity.
Qed.

Lemma service_error_exits_except_exists_witness :
  exit_status
    (Cli.handler (Fixtures.platform Fixtures.failing_client)
       (Cli.FileArgs (Fixtures.file_args "list" None None None false))) = 1%Z
  /\ printed ErrorCh
       (trace (Cli.handler (Fixtures.platform Fixtures.failing_client)
                 (Cli.FileArgs (Fixtures.file_args "list" None None None false))))
     = [ "Storage error" ].
Proof.
  apply (proj1 (service_error_exits_except_exists
                  (Fixtures.platform Fixtures.failing_client)
                  (Cli.FileArgs (Fixtures.file_args "list" None None None false)))
           (ListFiles "test-bucket" "" 100 None) Fixtures.storage_error).
  - simpl. left. reflexivity.
  - reflexivity.
  - reflexivity.
Defined.

(** C1, as stated, fails on [file exists]: the service answers the call
    with an error, yet the process does not end with status 1 and the
    message does not reach the error channel, with and without [--json]. *)
Lemma file_exists_swallows_service_error :
  response_error
    (Cli.client (Fixtures.platform Fixtures.failing_client)
       (Cli.FileArgs (Fixtures.file_args "exists" None None (Some "test.txt") false)))
    (Exists "test-bucket" "test.txt") = Some Fixtures.storage_error
  /\ Cli.handler (Fixtures.platform Fixtures.failing_client)
       (Cli.FileArgs (Fixtures.file_args "exists" None None (Some "test.txt") false))
     = ([ NewClient Fixtures.local_url "test-key";
          Call (Exists "test-bucket" "test.txt");
          Print InfoCh "File does not exist: test.txt" ], Ret tt)
  /\ Cli.handler (Fixtures.platform Fixtures.failing_client)
       (Cli.FileArgs (Fixtures.file_args "exists" None None (Some "test.txt") true))
     = ([ NewClient Fixtures.local_url "test-key";
          Call (Exists "test-bucket" "test.txt");
          Print LogCh "{}" ], Ret tt)
  /\ exit_status
       (Cli.handler (Fixtures.platform Fixtures.failing_client)
          (Cli.FileArgs (Fixtures.file_args "exists" None None (Some "test.txt") false)))
     <> 1%Z
  /\ ~ In (message Fixtures.storage_error)
         (printed ErrorCh
            (trace (Cli.handler (Fixtures.platform Fixtures.failing_client)
                      (Cli.FileArgs
                         (Fixtures.file_args "exists" None None (Some "test.txt") false))))).
Proof.
  repeat split; try reflexivity.
  - vm_compute. discriminate.
  - vm_compute. tauto.
Qed.


(** *** Source and destination of [upload] and [update] *)

Lemma or_else_falsy (x : option string) (d : string) :
  Js.truthy x = false -> Js.or_else x d = d.
Proof.
  unfold Js.or_else. destruct x as [ s | ]; simpl; [ | reflexivity ].
  now intros ->.
Qed.

Lemma require_some {A} (s msg : string) (k : string -> M A) :
  Js.truthy_str s = true -> bind (require (Some s) msg) k = k s.
Proof. unfold require. intros ->. apply bind_ret. Qed.

Lemma file_rejected_status (P : Platform) (argv : FileCmd.FileArguments)
    (msg : string) :
  Js.truthy_str (FileCmd.key argv) = true ->
  Js.truthy_str (FileCmd.bucket argv) = true ->
  Requirements.missing (Cli.FileArgs argv) msg ->
  exit_status (FileCmd.handler P argv) = 1%Z
  /\ printed ErrorCh (trace (FileCmd.handler P argv)) = [ msg ]
  /\ calls (trace (FileCmd.handler P argv)) = [].
Proof.
  intros Hkey Hbucket Hmiss.
  unfold FileCmd.handler. rewrite Hkey, Hbucket; simpl.
  rewrite (file_dispatch_missing P _ argv msg Hbucket Hmiss).
  repeat split.
Qed.

(** C2, as the code has it.  With a credential and a bucket: [upload]
    and [update] both reject a missing [--file] with status 1 and no client
    call; [upload] without [--path] sends the file under the base name of the
    local path; [update] without [--path] is rejected with status 1, a message
    asking for [--path], and no client call. *)
Theorem upload_defaults_destination_update_demands_it
    (P : Platform) (argv : FileCmd.FileArguments) :
  Js.truthy_str (FileCmd.key argv) = true ->
  Js.truthy_str (FileCmd.bucket argv) = true ->
  (In (FileCmd.action argv) ["upload"; "update"] ->
   Js.truthy (FileCmd.file argv) = false ->
   exit_status (FileCmd.handler P argv) = 1%Z
   /\ printed ErrorCh (trace (FileCmd.handler P argv))
      = [ "File path required (use --file)" ]
   /\ calls (trace (FileCmd.handler P argv)) = [])
  /\ (forall (f : string) (body : Buffer) (st : Stats),
       FileCmd.action argv = "upload" ->
       FileCmd.file argv = Some f ->
       Js.truthy_str f = true ->
       Js.truthy (FileCmd.path argv) = false ->
       readFileSync P f = Ok body ->
       statSync P f = Ok st ->
       calls (trace (FileCmd.handler P argv))
       = [ Upload (FileCmd.bucket argv) (NodePath.basename f) body
             (mkFileOptions (FileCmd.upsert argv) (Utils.getContentType f)) ])
  /\ (FileCmd.action argv = "update" ->
      Js.truthy (FileCmd.file argv) = true ->
      Js.truthy (FileCmd.path argv) = false ->
      exit_status (FileCmd.handler P argv) = 1%Z
      /\ printed ErrorCh (trace (FileCmd.handler P argv))
         = [ "Remote path required (use --path to specify destination)" ]
      /\ calls (trace (FileCmd.handler P argv)) = []).
Proof.
  intros Hkey Hbucket. split; [ | split ].
  - intros Hact Hfile.
    apply (file_rejected_status P argv); auto.
    now apply Requirements.file_source.
  - intros f body st Hact Hfile Hf Hpath Hread Hstat.
    rewrite (file_handler_guarded P argv Hkey Hbucket), guarded_calls.
    unfold FileCmd.dispatch. rewrite Hact; pick_case.
    rewrite Hfile, (require_some _ _ _ Hf).
    destruct (uploadFile_answers P (connect P (FileCmd.url argv) (FileCmd.key argv))
                (FileCmd.bucket argv) f (FileCmd.path argv) (FileCmd.upsert argv)
                (FileCmd.json argv) body st Hread Hstat) as (Hcalls & _).
    rewrite Hcalls. now rewrite (or_else_falsy _ _ Hpath).
  - intros Hact Hfile Hpath.
    apply (file_rejected_status P argv); auto.
    now apply Requirements.file_destination.
Qed.

Lemma upload_defaults_destination_update_demands_it_witness :
  calls (trace (FileCmd.handler (Fixtures.platform Fixtures.ok_client)
                  (Fixtures.file_args "upload" None (Some "/local/test.txt") None false)))
  = [ Upload "test-bucket" "test.txt" [] (mkFileOptions false "text/plain") ]
  /\ exit_status
       (FileCmd.handler (Fixtures.platform Fixtures.ok_client)
          (Fixtures.file_args "update" None (Some "/local/test.txt") None false))
     = 1%Z.
Proof.
  destruct (upload_defaults_destination_update_demands_it
              (Fixtures.platform Fixtures.ok_client)
              (Fixtures.file_args "upload" None (Some "/local/test.txt") None false)
              eq_refl eq_refl) as (_ & Hupload & _).
  destruct (upload_defaults_destination_update_demands_it
              (Fixtures.platform Fixtures.ok_client)
              (Fixtures.file_args "update" None (Some "/local/test.txt") None false)
              eq_refl eq_refl) as (_ & _ & Hupdate).
  split.
  - apply (Hupload "/local/test.txt" [] (mkStats 12));
      reflexivity.
  - apply Hupdate; reflexivity.
Defined.

(** C2, as stated, fails on [file update]: with [--file] given and
    [--path] omitted nothing is sent under the base name of the local file;
    the run ends with status 1 and the message asking for [--path]. *)
Lemma file_update_without_path_is_rejected :
  FileCmd.handler (Fixtures.platform Fixtures.ok_client)
    (Fixtures.file_args "update" None (Some "/local/test.txt") None false)
  = ([ NewClient Fixtures.local_url "test-key";
       Print ErrorCh "Remote path required (use --path to specify destination)" ],
     Exit 1)
  /\ ~ (exists (body : Buffer) (opts : FileOptions),
         In (Update "test-bucket" (NodePath.basename "/local/test.txt") body opts)
            (calls (trace
               (FileCmd.handler (Fixtures.platform Fixtures.ok_client)
                  (Fixtures.file_args "update" None (Some "/local/test.txt")
                     None false))))).
Proof.
  split; [ reflexivity | ].
  intros (body & opts & Hin). exact Hin.
Qed.


(** *** The remote path of [download], [info] and [exists] *)

Lemma actualPath_flag (argv : FileCmd.FileArguments) (p : string) :
  FileCmd.path argv = Some p ->
  Js.truthy_str p = true ->
  FileCmd.actualPath argv = Some p.
Proof.
  unfold FileCmd.actualPath, Js.or_opt. intros -> Hp. simpl. now rewrite Hp.
Qed.

Lemma actualPath_positional (argv : FileCmd.FileArguments)
    (a : string) (rest : list string) :
  Js.truthy (FileCmd.path argv) = false ->
  FileCmd.args argv = Some (a :: rest) ->
  FileCmd.actualPath argv = Some a.
Proof.
  unfold FileCmd.actualPath, Js.or_opt. now intros -> ->.
Qed.

(** The one request of the three actions, given the path they settle
    on. *)
Lemma path_action_calls (P : Platform) (argv : FileCmd.FileArguments)
    (action : string) (request : string -> string -> Request) (p : string) :
  In (action, request)
     [ ("download", DownloadFile); ("info", Info); ("exists", Exists) ] ->
  FileCmd.action argv = action ->
  Js.truthy_str (FileCmd.key argv) = true ->
  Js.truthy_str (FileCmd.bucket argv) = true ->
  FileCmd.actualPath argv = Some p ->
  Js.truthy_str p = true ->
  calls (trace (FileCmd.handler P argv)) = [ request (FileCmd.bucket argv) p ].
Proof.
  intros Hin Hact Hkey Hbucket Hpath Hp.
  rewrite (file_handler_guarded P argv Hkey Hbucket), guarded_calls.
  unfold FileCmd.dispatch. rewrite Hact.
  simpl in Hin.
  destruct Hin as [ Hin | [ Hin | [ Hin | [] ] ] ];
    injection Hin as <- <-; pick_case;
    rewrite Hpath, (require_some _ _ _ Hp).
  - apply downloadFile_answers.
  - apply getFileInfo_answers.
  - apply checkFileExists_answers.
Qed.

(** C10. For [download], [info] and [exists], with a credential and a
    bucket: a non-empty [--path] is the path the one client call is made
    with, whatever positional arguments follow; without [--path] the first
    positional argument is. *)
Theorem path_flag_precedes_first_positional
    (P : Platform) (argv : FileCmd.FileArguments)
    (action : string) (request : string -> string -> Request) :
  In (action, request)
     [ ("download", DownloadFile); ("info", Info); ("exists", Exists) ] ->
  FileCmd.action argv = action ->
  Js.truthy_str (FileCmd.key argv) = true ->
  Js.truthy_str (FileCmd.bucket argv) = true ->
  (forall p : string,
      FileCmd.path argv = Some p ->
      Js.truthy_str p = true ->
      calls (trace (FileCmd.handler P argv)) = [ request (FileCmd.bucket argv) p ])
  /\ (forall (a : string) (rest : list string),
      Js.truthy (FileCmd.path argv) = false ->
      FileCmd.args argv = Some (a :: rest) ->
      Js.truthy_str a = true ->
      calls (trace (FileCmd.handler P argv)) = [ request (FileCmd.bucket argv) a ]).
Proof.
  intros Hin Hact Hkey Hbucket. split.
  - intros p Hpath Hp.
    apply (path_action_calls P argv action request p); auto.
    now apply actualPath_flag.
  - intros a rest Hpath Hargs Ha.
    apply (path_action_calls P argv action request a); auto.
    now apply (actualPath_positional argv a rest).
Qed.

Lemma path_flag_precedes_first_positional_witness :
  calls (trace (FileCmd.handler (Fixtures.platform Fixtures.ok_client)
                  (Fixtures.file_args "info" (Some ["positional.txt"]) None
                     (Some "flag.txt") false)))
  = [ Info "test-bucket" "flag.txt" ]
  /\ calls (trace (FileCmd.handler (Fixtures.platform Fixtures.ok_client)
                     (Fixtures.file_args "download" (Some ["positional.txt"]) None
                        None false)))
     = [ DownloadFile "test-bucket" "positional.txt" ].
Proof.
  split.
  - apply (proj1 (path_flag_precedes_first_positional
                    (Fixtures.platform Fixtures.ok_client)
                    (Fixtures.file_args "info" (Some ["positional.txt"]) None
                       (Some "flag.txt") false)
                    "info" Info
                    (or_intror (or_introl eq_refl)) eq_refl eq_refl eq_refl)
             "flag.txt" eq_refl eq_refl).
  - apply (proj2 (path_flag_precedes_first_positional
                    (Fixtures.platform Fixtures.ok_client)
                    (Fixtures.file_args "download" (Some ["positional.txt"]) None
                       None false)
                    "download" DownloadFile
                    (or_introl eq_refl) eq_refl eq_refl eq_refl)
             "positional.txt" [] eq_refl eq_refl eq_refl).
Defined.

(** *** [file delete] *)

Lemma guarded_unfold (P : Platform) (url key : string) (body : Client -> M unit) :
  guarded P url key body
  = (NewClient url key
       :: trace (try_catch (body (connect P url key)) report_and_exit),
     outcome (try_catch (body (connect P url key)) report_and_exit)).
Proof.
  unfold guarded, getStorageClient, bind; simpl.
  destruct (try_catch (body (connect P url key)) report_and_exit); reflexivity.
Qed.


Lemma printed_success_log (msgs : list string) :
  printed SuccessCh (map (Print LogCh) msgs) = [].
Proof. induction msgs; simpl; auto. Qed.

(** C7. [file delete <bucket> p1 ... pn] with [n >= 1], a credential and
    a bucket issues exactly one client call, [remove [p1; ...; pn]], the
    paths in command-line order; when the call succeeds the run reports
    "Deleted m file(s)" with [m] the number of entries the client
    returned, and ends with status 0. *)
Theorem file_delete_single_remove_reports_returned_count
    (P : Platform) (argv : FileCmd.FileArguments) (paths : list string) :
  FileCmd.action argv = "delete" ->
  Js.truthy_str (FileCmd.key argv) = true ->
  Js.truthy_str (FileCmd.bucket argv) = true ->
  FileCmd.args argv = Some paths ->
  paths <> [] ->
  calls (trace (FileCmd.handler P argv)) = [ Remove (FileCmd.bucket argv) paths ]
  /\ forall data : list FileObject,
      remove (connect P (FileCmd.url argv) (FileCmd.key argv))
             (FileCmd.bucket argv) paths = Ok data ->
      printed SuccessCh (trace (FileCmd.handler P argv))
      = [ "Deleted " ++ Js.string_of_nat (List.length data) ++ " file(s)" ]
      /\ exit_status (FileCmd.handler P argv) = 0%Z.
Proof.
  intros Hact Hkey Hbucket Hargs Hne.
  rewrite (file_handler_guarded P argv Hkey Hbucket).
  assert (Hdispatch :
    forall c, FileCmd.dispatch P c argv
              = FileCmd.deleteFiles P c (FileCmd.bucket argv) paths (FileCmd.json argv)).
  { intros c. unfold FileCmd.dispatch. rewrite Hact; pick_case.
    rewrite Hargs; simpl.
    destruct paths as [ | p rest ]; [ congruence | reflexivity ]. }
  split.
  - rewrite guarded_calls, Hdispatch. apply deleteFiles_answers.
  - intros data Hok.
    rewrite guarded_unfold, Hdispatch.
    unfold FileCmd.deleteFiles. rewrite Hok. run_op.
    all: rewrite ?printed_app, ?printed_success_log; simpl; split; reflexivity.
Qed.

Lemma file_delete_single_remove_reports_returned_count_witness :
  calls (trace (FileCmd.handler (Fixtures.platform Fixtures.ok_client)
                  (Fixtures.file_args "delete" (Some ["a.txt"; "b.txt"]) None None
                     false)))
  = [ Remove "test-bucket" ["a.txt"; "b.txt"] ]
  /\ printed SuccessCh
       (trace (FileCmd.handler (Fixtures.platform Fixtures.ok_client)
                 (Fixtures.file_args "delete" (Some ["a.txt"; "b.txt"]) None None
                    false)))
     = [ "Deleted 1 file(s)" ].
Proof.
  destruct (file_delete_single_remove_reports_returned_count
              (Fixtures.platform Fixtures.ok_client)
              (Fixtures.file_args "delete" (Some ["a.txt"; "b.txt"]) None None false)
              ["a.txt"; "b.txt"] eq_refl eq_refl eq_refl eq_refl)
    as (Hcalls & Hok).
  - discriminate.
  - split; [ exact Hcalls | ].
    apply (Hok Fixtures.removed eq_refl).
Defined.

(** *** [url signed-urls] *)

Lemma forEach_report_item (data : list SignedUrlItem) :
  forEach data UrlCmd.report_item
  = (map (Print LogCh) (flat_map entry_lines data), Ret tt).
Proof.
  induction data as [ | item rest IH ]; simpl; [ reflexivity | ].
  unfold bind. rewrite IH. rewrite map_app.
  unfold UrlCmd.report_item, entry_lines, UrlCmd.has_error.
  destruct (Js.truthy (item_error item)); reflexivity.
Qed.




End HandlerFacts.

(** ** Paths: only the last component counts *)

Module PathFacts.
Import Js NodePath Utils Conduct.
#[local] Open Scope string_scope.

Lemma list_ascii_of_append (a b : string) :
  list_ascii_of_string (a ++ b)
  = (list_ascii_of_string a ++ list_ascii_of_string b)%list.
Proof. induction a as [ | c a IH ]; simpl; [ reflexivity | now rewrite IH ]. Qed.

Lemma component_chars (dir name : string) :
  list_ascii_of_string (dir ++ "/" ++ name)
  = (list_ascii_of_string dir ++ "/"%char :: list_ascii_of_string name)%list.
Proof. now rewrite list_ascii_of_append. Qed.

Lemma component_rev (d n : list ascii) :
  rev (d ++ "/"%char :: n) = (rev n ++ "/"%char :: rev d)%list.
Proof. rewrite rev_app_distr; simpl. now rewrite <- app_assoc. Qed.

Lemma no_slash_rev (n : list ascii) :
  no_slash n = true -> no_slash (rev n) = true.
Proof.
  unfold no_slash. rewrite !forallb_forall. intros H c Hin.
  apply H. now apply in_rev.
Qed.

Lemma slice_component (d n : list ascii) (a b : Z) :
  (0 <= a)%Z ->
  slice (d ++ "/"%char :: n) (a + (Z.of_nat (List.length d) + 1))
        (b + (Z.of_nat (List.length d) + 1))
  = slice n a b.
Proof.
  intros Ha. unfold slice.
  replace (b + (Z.of_nat (List.length d) + 1) - (a + (Z.of_nat (List.length d) + 1)))%Z
    with (b - a)%Z by lia.
  f_equal.
  replace (Z.to_nat (a + (Z.of_nat (List.length d) + 1)))
    with (List.length (d ++ ["/"%char]) + Z.to_nat a)%nat
    by (rewrite length_app; simpl; lia).
  replace (d ++ "/"%char :: n)%list with ((d ++ ["/"%char]) ++ n)%list
    by (now rewrite <- app_assoc).
  now rewrite skipn_app, skipn_all2, Nat.add_comm, Nat.add_sub by lia.
Qed.

(** *** basename *)

Lemma basename_loop_skip (l rest : list ascii) :
  no_slash l = true ->
  forall (i s e : Z) (m : bool),
    e <> (-1)%Z ->
    basename_loop (l ++ rest) i (mkBase s e m)
    = basename_loop rest (i - Z.of_nat (List.length l)) (mkBase s e m).
Proof.
  intros Hl. induction l as [ | c l IH ]; intros i s e m He.
  - simpl. f_equal. lia.
  - simpl in Hl. apply andb_prop in Hl as [Hc Hl].
    apply negb_true_iff in Hc.
    cbn [app basename_loop]. rewrite Hc. cbn [b_end].
    destruct (Z.eqb_spec e (-1)); [ contradiction | ].
    rewrite (IH Hl) by assumption. f_equal.
    rewrite length_cons. lia.
Qed.

Lemma basename_loop_last (l rest : list ascii) (i s : Z) :
  l <> [] ->
  no_slash l = true ->
  (0 <= i)%Z ->
  basename_loop (l ++ rest) i (mkBase s (-1) true)
  = basename_loop rest (i - Z.of_nat (List.length l)) (mkBase s (i + 1) false).
Proof.
  intros Hne Hl Hi. destruct l as [ | c l ]; [ contradiction | ].
  simpl in Hl. apply andb_prop in Hl as [Hc Hl].
  apply negb_true_iff in Hc.
  cbn [app basename_loop]. rewrite Hc. cbn [b_end b_start]. simpl (_ =? _)%Z.
  rewrite (basename_loop_skip l rest Hl) by lia.
  f_equal. rewrite length_cons. lia.
Qed.

Lemma nonempty_rev (n : list ascii) : n <> [] -> rev n <> [].
Proof.
  intros Hn E. apply Hn. rewrite <- (rev_involutive n). now rewrite E.
Qed.

Lemma basename_state_plain (n : list ascii) :
  n <> [] ->
  no_slash n = true ->
  basename_loop (rev n) (Z.of_nat (List.length n) - 1) (mkBase 0 (-1) true)
  = mkBase 0 (Z.of_nat (List.length n)) false.
Proof.
  intros Hn Hns.
  assert (Hlen : (0 < List.length n)%nat) by (destruct n; simpl; [ congruence | lia ]).
  rewrite <- (app_nil_r (rev n)).
  rewrite basename_loop_last
    by (auto using nonempty_rev, no_slash_rev; lia).
  cbn [basename_loop]. f_equal. lia.
Qed.

Lemma basename_state_component (d n : list ascii) :
  n <> [] ->
  no_slash n = true ->
  basename_loop (rev (d ++ "/"%char :: n))
    (Z.of_nat (List.length (d ++ "/"%char :: n)) - 1) (mkBase 0 (-1) true)
  = mkBase (0 + (Z.of_nat (List.length d) + 1))
           (Z.of_nat (List.length n) + (Z.of_nat (List.length d) + 1)) false.
Proof.
  intros Hn Hns.
  assert (Hlen : (0 < List.length n)%nat) by (destruct n; simpl; [ congruence | lia ]).
  rewrite component_rev, basename_loop_last
    by (auto using nonempty_rev, no_slash_rev; rewrite length_app; simpl; lia).
  rewrite length_rev. cbn [basename_loop].
  change (is_slash "/") with true. cbn [b_matchedSlash negb b_end].
  f_equal; rewrite length_app; simpl; lia.
Qed.

Lemma slice_whole (n : list ascii) : slice n 0 (Z.of_nat (List.length n)) = n.
Proof.
  unfold slice.
  replace (Z.to_nat (Z.of_nat (List.length n) - 0)) with (List.length n) by lia.
  simpl. apply firstn_all.
Qed.

Lemma nonempty_chars (name : string) :
  name <> "" -> list_ascii_of_string name <> [].
Proof.
  intros Hne E. apply Hne.
  rewrite <- (string_of_list_ascii_of_string name). now rewrite E.
Qed.

(** The base name of a path is its last component: a non-empty name
    without separator is its own base name, and stays the base name
    whatever directory is put in front of it. *)
Lemma basename_component (dir name : string) :
  name <> "" ->
  no_slash (list_ascii_of_string name) = true ->
  basename name = name /\ basename (dir ++ "/" ++ name) = name.
Proof.
  intros Hne Hns. pose proof (nonempty_chars name Hne) as Hn.
  assert (Hlen : (0 < List.length (list_ascii_of_string name))%nat)
    by (destruct (list_ascii_of_string name); simpl; [ congruence | lia ]).
  split.
  - unfold basename; cbv zeta.
    rewrite basename_state_plain by assumption. cbn [b_end b_start].
    destruct (Z.eqb_spec (Z.of_nat (List.length (list_ascii_of_string name))) (-1));
      [ lia | ].
    rewrite slice_whole. apply string_of_list_ascii_of_string.
  - unfold basename; cbv zeta. rewrite component_chars.
    rewrite basename_state_component by assumption. cbn [b_end b_start].
    match goal with |- context [ (?x =? -1)%Z ] =>
      destruct (Z.eqb_spec x (-1)); [ lia | ] end.
    rewrite slice_component by lia.
    rewrite slice_whole. apply string_of_list_ascii_of_string.
Qed.

(** *** extname *)

Ltac decide_tests :=
  repeat (cbn [startDot startPart end_ matchedSlash preDotState negb] in *;
          match goal with
          | |- context [ (?x =? ?y)%Z ] =>
              destruct (Z.eqb_spec x y);
              cbn [startDot startPart end_ matchedSlash preDotState negb] in *;
              try (exfalso; lia)
          end);
  cbn [startDot startPart end_ matchedSlash preDotState negb] in *.

Lemma ext_step_shift (c : ascii) (i k : Z) (st : ExtState) :
  (0 <= i)%Z -> (0 <= k)%Z -> ext_wf st ->
  ext_step c (i + k) (shift_ext k st) = shift_ext k (ext_step c i st)
  /\ ext_wf (ext_step c i st).
Proof.
  intros Hi Hk [Hsd He]. destruct st as [sd sp e ms pd].
  unfold ext_step, shift_ext, ext_wf in *; simpl in *.
  destruct (Z.eqb_spec e (-1)) as [ -> | He' ];
    destruct (Z.eqb_spec sd (-1)) as [ -> | Hsd' ];
    destruct (Z.eqb_spec pd 1) as [ -> | Hpd ];
    destruct (is_dot c); decide_tests;
    (split; [ try reflexivity; f_equal; lia | lia ]).
Qed.

Lemma extname_loop_shift (l : list ascii) (k : Z) :
  no_slash l = true -> (0 <= k)%Z ->
  forall (i : Z) (st : ExtState),
    (Z.of_nat (List.length l) <= i + 1)%Z ->
    ext_wf st ->
    extname_loop l (i + k) (shift_ext k st) = shift_ext k (extname_loop l i st).
Proof.
  intros Hl Hk. induction l as [ | c l IH ]; intros i st Hlen Hwf.
  - reflexivity.
  - simpl in Hl. apply andb_prop in Hl as [Hc Hl]. apply negb_true_iff in Hc.
    rewrite length_cons in Hlen.
    cbn [extname_loop]. rewrite Hc.
    destruct (ext_step_shift c i k st) as [Hstep Hwf']; [ lia | lia | exact Hwf | ].
    rewrite Hstep.
    replace (i + k - 1)%Z with (i - 1 + k)%Z by lia.
    apply (IH Hl); [ lia | exact Hwf' ].
Qed.

Lemma extname_loop_app (l rest : list ascii) :
  no_slash l = true ->
  forall (i : Z) (st : ExtState),
    extname_loop (l ++ rest) i st
    = extname_loop rest (i - Z.of_nat (List.length l)) (extname_loop l i st).
Proof.
  intros Hl. induction l as [ | c l IH ]; intros i st.
  - simpl. f_equal. lia.
  - simpl in Hl. apply andb_prop in Hl as [Hc Hl]. apply negb_true_iff in Hc.
    cbn [app extname_loop]. rewrite Hc, (IH Hl). f_equal.
    rewrite length_cons. lia.
Qed.

Lemma ext_step_unmatched (c : ascii) (i : Z) (st : ExtState) :
  end_ st = (-1)%Z \/ matchedSlash st = false ->
  matchedSlash (ext_step c i st) = false.
Proof.
  destruct st as [sd sp e ms pd]. unfold ext_step; simpl.
  intros [ -> | -> ]; destruct (is_dot c); decide_tests; reflexivity.
Qed.

Lemma extname_loop_unmatched (l : list ascii) :
  no_slash l = true ->
  forall (i : Z) (st : ExtState),
    matchedSlash st = false ->
    matchedSlash (extname_loop l i st) = false.
Proof.
  intros Hl. induction l as [ | c l IH ]; intros i st Hms; [ exact Hms | ].
  simpl in Hl. apply andb_prop in Hl as [Hc Hl]. apply negb_true_iff in Hc.
  cbn [extname_loop]. rewrite Hc. apply (IH Hl).
  apply ext_step_unmatched. now right.
Qed.

Lemma extname_loop_component_unmatched (l : list ascii) (i : Z) :
  l <> [] -> no_slash l = true ->
  matchedSlash (extname_loop l i ext_init) = false.
Proof.
  intros Hne Hl. destruct l as [ | c l ]; [ contradiction | ].
  simpl in Hl. apply andb_prop in Hl as [Hc Hl]. apply negb_true_iff in Hc.
  cbn [extname_loop]. rewrite Hc.
  apply (extname_loop_unmatched l Hl), ext_step_unmatched. now left.
Qed.

Lemma extname_loop_wf (l : list ascii) :
  no_slash l = true ->
  forall (i : Z) (st : ExtState),
    (Z.of_nat (List.length l) <= i + 1)%Z ->
    ext_wf st -> ext_wf (extname_loop l i st).
Proof.
  intros Hl. induction l as [ | c l IH ]; intros i st Hlen Hwf; [ exact Hwf | ].
  simpl in Hl. apply andb_prop in Hl as [Hc Hl]. apply negb_true_iff in Hc.
  rewrite length_cons in Hlen.
  cbn [extname_loop]. rewrite Hc. apply (IH Hl); [ lia | ].
  apply (ext_step_shift c i 0 st); [ lia | lia | exact Hwf ].
Qed.

Lemma ext_step_startPart (c : ascii) (i : Z) (st : ExtState) :
  startPart (ext_step c i st) = startPart st.
Proof.
  destruct st as [sd sp e ms pd]. unfold ext_step; simpl.
  destruct (is_dot c); decide_tests; reflexivity.
Qed.

Lemma extname_loop_startPart (l : list ascii) :
  no_slash l = true ->
  forall (i : Z) (st : ExtState),
    startPart (extname_loop l i st) = startPart st.
Proof.
  intros Hl. induction l as [ | c l IH ]; intros i st; [ reflexivity | ].
  simpl in Hl. apply andb_prop in Hl as [Hc Hl]. apply negb_true_iff in Hc.
  cbn [extname_loop]. rewrite Hc, (IH Hl). apply ext_step_startPart.
Qed.

Lemma ext_empty_shift (sd e k : Z) (ms : bool) (pd : Z) :
  (0 <= sd)%Z -> (0 <= e)%Z -> (0 <= k)%Z ->
  ext_empty (mkExt (sd + k) k (e + k) ms pd) = ext_empty (mkExt sd 0 e ms pd).
Proof.
  intros Hsd He Hk.
  unfold ext_empty; cbn [startDot startPart end_ matchedSlash preDotState].
  decide_tests; reflexivity.
Qed.

(** The extension of a path is the extension of its last component. *)
Lemma extname_chars_component (d n : list ascii) :
  n <> [] -> no_slash n = true ->
  extname_chars (d ++ "/"%char :: n) = extname_chars n.
Proof.
  intros Hn Hns.
  assert (Hlen : (0 < List.length n)%nat) by (destruct n; simpl; [ congruence | lia ]).
  pose proof (no_slash_rev n Hns) as Hrs.
  pose proof (nonempty_rev n Hn) as Hrn.
  set (k := (Z.of_nat (List.length d) + 1)%Z).
  set (st := extname_loop (rev n) (Z.of_nat (List.length n) - 1) ext_init).
  assert (Hwf : ext_wf st).
  { apply extname_loop_wf; [ exact Hrs | rewrite length_rev; lia | split; simpl; lia ]. }
  assert (Hms : matchedSlash st = false)
    by (now apply extname_loop_component_unmatched).
  assert (Hfull :
    extname_loop (rev (d ++ "/"%char :: n))
      (Z.of_nat (List.length (d ++ "/"%char :: n)) - 1) ext_init
    = mkExt (startDot (shift_ext k st)) k (end_ (shift_ext k st))
            (matchedSlash st) (preDotState st)).
  { rewrite component_rev, (extname_loop_app _ _ Hrs), length_rev.
    replace (Z.of_nat (List.length (d ++ "/"%char :: n)) - 1)%Z
      with (Z.of_nat (List.length n) - 1 + k)%Z
      by (unfold k; rewrite length_app; simpl; lia).
    change ext_init with (shift_ext k ext_init).
    rewrite (extname_loop_shift (rev n) k Hrs)
      by (try rewrite length_rev; unfold k; try lia; split; simpl; lia).
    fold st. cbn [extname_loop]. change (is_slash "/") with true.
    cbn [shift_ext matchedSlash]. rewrite Hms. cbn [negb].
    unfold shift_ext. cbn [startDot startPart end_ matchedSlash preDotState].
    f_equal. lia. }
  unfold extname_chars. rewrite Hfull. fold st.
  assert (Hsp : startPart st = 0%Z)
    by (unfold st; now rewrite extname_loop_startPart).
  destruct Hwf as [Hsd He]. clearbody st. destruct st as [sd sp e ms pd].
  cbn [startDot startPart end_ matchedSlash preDotState] in *. subst sp.
  unfold shift_ext. cbn [startDot startPart end_ matchedSlash preDotState].
  destruct (Z.eqb_spec sd (-1)) as [ -> | Hsd' ]; [ reflexivity | ].
  destruct (Z.eqb_spec e (-1)) as [ -> | He' ].
  - unfold ext_empty; cbn [startDot startPart end_ matchedSlash preDotState].
    simpl (-1 =? -1)%Z. now rewrite !orb_true_r.
  - rewrite (ext_empty_shift sd e k ms pd) by (unfold k; lia).
    destruct (ext_empty _); [ reflexivity | ].
    apply slice_component. lia.
Qed.

Lemma extname_component (dir name : string) :
  name <> "" ->
  no_slash (list_ascii_of_string name) = true ->
  extname (dir ++ "/" ++ name) = extname name.
Proof.
  intros Hne Hns. unfold extname. rewrite component_chars.
  now rewrite extname_chars_component by auto using nonempty_chars.
Qed.

Lemma extname_component_type (dir name : string) :
  name <> "" ->
  no_slash (list_ascii_of_string name) = true ->
  getContentType (dir ++ "/" ++ name) = getContentType name.
Proof.
  intros Hne Hns. unfold getContentType.
  now rewrite (extname_component dir name Hne Hns).
Qed.

(** X2. The content type of a path depends on its last component only:
    dots in the directory part are not extensions, and a name is typed the
    same wherever it lies. *)
Theorem getContentType_of_last_component (dir name : string) :
  name <> "" ->
  no_slash (list_ascii_of_string name) = true ->
  extname (dir ++ "/" ++ name) = extname name
  /\ getContentType (dir ++ "/" ++ name) = getContentType name.
Proof.
  intros Hne Hns.
  pose proof (extname_component dir name Hne Hns) as Hext.
  split; [ exact Hext | ].
  unfold getContentType. now rewrite Hext.
Qed.

Lemma getContentType_of_last_component_witness :
  extname ("/srv/site.v2/uploads" ++ "/" ++ "README") = extname "README"
  /\ getContentType ("/srv/site.v2/uploads" ++ "/" ++ "README")
     = getContentType "README".
Proof.
  apply getContentType_of_last_component; [ discriminate | reflexivity ].
Defined.

End PathFacts.

(** ** formatBytes: the unit table and the mantissa *)

Module BytesFacts.
Import Js Utils.
#[local] Open Scope string_scope.

Lemma append_empty (s : string) : s ++ "" = s.
Proof. induction s as [ | c s IH ]; simpl; [ reflexivity | now rewrite IH ]. Qed.

Lemma unit_index_small (bytes : N) :
  (0 < bytes)%N ->
  forall j : N, (bytes < k ^ j)%N <-> (unit_index bytes < j)%N.
Proof.
  intros Hpos j. unfold unit_index. change (N.log2 k) with 10%N.
  rewrite UtilsFacts.k_pow, (N.log2_lt_pow2 bytes (10 * j) Hpos).
  split; intros H.
  - apply N.Div0.div_lt_upper_bound. lia.
  - pose proof (N.Div0.mul_div_le (N.log2 bytes) 10).
    pose proof (N.mul_succ_div_gt (N.log2 bytes) 10). lia.
Qed.

(** X3. A count below 1024 is printed as it is, in bytes, with no
    fraction. *)
Theorem formatBytes_below_one_kilobyte (bytes : N) :
  (bytes < 1024)%N -> formatBytes bytes = string_of_N bytes ++ " B".
Proof.
  intros Hlt. unfold formatBytes.
  destruct (N.eqb_spec bytes 0) as [ -> | Hne ]; [ reflexivity | ].
  assert (Hpos : (0 < bytes)%N) by lia.
  assert (Hi : unit_index bytes = 0%N).
  { pose proof (proj1 (unit_index_small bytes Hpos 1) Hlt). lia. }
  rewrite Hi. unfold hundredths, show_hundredths. change (k ^ 0)%N with 1%N.
  replace ((200 * bytes + 1) / (2 * 1))%N with (bytes * 100)%N.
  - rewrite N.div_mul, N.Div0.mod_mul by lia.
    change (fraction 0) with "". now rewrite append_empty.
  - apply N.div_unique with (r := 1%N); lia.
Qed.

Lemma formatBytes_below_one_kilobyte_witness : formatBytes 1023 = "1023 B".
Proof. apply (formatBytes_below_one_kilobyte 1023). reflexivity. Defined.

(** X4. On the counts where the doubles of the source are exact
    ([0 < bytes] and [100 * bytes < 2 ^ 53], which reaches past 81 TB) the
    mantissa lies between 1 and 1024 (100 to 102400 hundredths), the index
    of the unit is at most 4, and the unit printed is one of B, KB, MB, GB,
    TB: the table is never left. *)
Theorem formatBytes_mantissa_and_unit_range (bytes : N) :
  Conduct.exact_count bytes ->
  (100 <= hundredths bytes (unit_index bytes) <= 102400)%N
  /\ (unit_index bytes <= 4)%N
  /\ In (size_name (unit_index bytes)) sizes.
Proof.
  intros [Hpos Hexact].
  assert (Hi : (unit_index bytes < 5)%N).
  { apply (unit_index_small bytes Hpos 5).
    change (k ^ 5)%N with 1125899906842624%N.
    change (2 ^ 53)%N with 9007199254740992%N in Hexact. lia. }
  split; [ | split ].
  - pose proof (UtilsFacts.unit_index_bounds bytes Hpos) as [Hlo Hhi].
    pose proof (UtilsFacts.hundredths_nearest bytes (unit_index bytes)) as [Hdn Hup].
    pose proof (UtilsFacts.k_pow_pos (unit_index bytes)) as HK.
    rewrite N.pow_add_r in Hhi. change (k ^ 1)%N with 1024%N in Hhi.
    set (K := (k ^ unit_index bytes)%N) in *.
    set (h := hundredths bytes (unit_index bytes)) in *.
    split; nia.
  - lia.
  - unfold size_name.
    destruct (unit_index bytes) as [ | p ]; [ simpl; auto | ].
    do 3 (try destruct p as [ p | p | ]); try lia; simpl; auto 6.
Qed.

Lemma formatBytes_mantissa_and_unit_range_witness :
  (100 <= hundredths 90071992547409 (unit_index 90071992547409) <= 102400)%N
  /\ (unit_index 90071992547409 <= 4)%N
  /\ In (size_name (unit_index 90071992547409)) sizes.
Proof.
  apply (formatBytes_mantissa_and_unit_range 90071992547409).
  unfold Conduct.exact_count. split; reflexivity.
Defined.

End BytesFacts.

(** ** The shape of every run *)

Module RunFacts.
Import Storage Effects Common Config Observations Conduct HandlerFacts.
#[local] Open Scope string_scope.

Ltac close_tame :=
  unfold tame; run_op;
  rewrite ?calls_app, ?printed_app, ?calls_log, ?printed_error_log; simpl;
  repeat split; try reflexivity; try lia;
  first [ left; reflexivity | right; eexists; reflexivity ].

Lemma throw_tame (msg : string) : tame (throw msg).
Proof. unfold tame; simpl. repeat split; try lia. right. now eexists. Qed.

Lemma require_tame (x : option string) (msg : string) (k : string -> M unit) :
  (forall s, tame (k s)) -> tame (bind (require x msg) k).
Proof.
  intros Hk. unfold require.
  destruct x as [ s | ]; [ destruct (Js.truthy_str s) | ];
    try apply throw_tame.
  rewrite bind_ret. apply Hk.
Qed.

Lemma bucket_dispatch_tame (P : Platform) (c : Client)
    (argv : BucketCmd.BucketArguments) :
  tame (BucketCmd.dispatch P c argv).
Proof.
  unfold BucketCmd.dispatch; cbv zeta.
  repeat match goal with
    | |- tame (if ?b then _ else _) => destruct b
    | |- tame (bind (require _ _) _) => apply require_tame; intros ?
    end;
    try apply throw_tame.
  - unfold BucketCmd.listBuckets. close_tame.
  - unfold BucketCmd.createBucket. close_tame.
  - unfold BucketCmd.getBucket. close_tame.
  - unfold BucketCmd.updateBucket. close_tame.
  - unfold BucketCmd.emptyBucket. close_tame.
  - unfold BucketCmd.deleteBucket. close_tame.
Qed.

Lemma file_dispatch_tame (P : Platform) (c : Client)
    (argv : FileCmd.FileArguments) :
  tame (FileCmd.dispatch P c argv).
Proof.
  unfold FileCmd.dispatch; cbv zeta.
  repeat match goal with
    | |- tame (if ?b then _ else _) => destruct b
    | |- tame (bind (require _ _) _) => apply require_tame; intros ?
    end;
    try apply throw_tame.
  - unfold FileCmd.uploadFile. close_tame.
  - unfold FileCmd.downloadFile. close_tame.
  - unfold FileCmd.listFiles. close_tame.
  - unfold FileCmd.deleteFiles. close_tame.
  - unfold FileCmd.moveFile. close_tame.
  - unfold FileCmd.copyFile. close_tame.
  - unfold FileCmd.getFileInfo. close_tame.
  - unfold FileCmd.checkFileExists. close_tame.
  - unfold FileCmd.updateFile. close_tame.
Qed.

Lemma url_dispatch_tame (P : Platform) (c : Client)
    (argv : UrlCmd.UrlArguments) :
  tame (UrlCmd.dispatch P c argv).
Proof.
  unfold UrlCmd.dispatch; cbv zeta.
  repeat match goal with
    | |- tame (if ?b then _ else _) => destruct b
    | |- tame (bind (require _ _) _) => apply require_tame; intros ?
    end;
    try apply throw_tame.
  - unfold UrlCmd.getPublicUrl. close_tame.
  - unfold UrlCmd.getSignedUrl. close_tame.
  - unfold UrlCmd.getSignedUploadUrl. close_tame.
  - unfold UrlCmd.getSignedUrls. close_tame.
Qed.

Lemma guarded_tame (P : Platform) (url key : string) (body : Client -> M unit) :
  tame (body (connect P url key)) ->
  (List.length (calls (trace (guarded P url key body))) <= 1)%nat
  /\ ((outcome (guarded P url key body) = Ret tt
       /\ printed ErrorCh (trace (guarded P url key body)) = [])
      \/ (outcome (guarded P url key body) = Exit 1
          /\ exists msg, printed ErrorCh (trace (guarded P url key body)) = [ msg ])).
Proof.
  intros (Hquiet & Hcalls & Hout). split.
  - now rewrite guarded_calls.
  - rewrite guarded_unfold. cbn [trace outcome fst snd].
    destruct (body (connect P url key)) as [ t o ]; cbn [trace outcome fst snd] in *.
    destruct Hout as [ -> | [ e -> ] ]; simpl.
    + left. split; [ reflexivity | exact Hquiet ].
    + right. split; [ reflexivity | ].
      exists (message e). now rewrite printed_app, Hquiet.
Qed.

Lemma handler_shape (P : Platform) (a : Cli.Parsed) :
  (List.length (calls (trace (Cli.handler P a))) <= 1)%nat
  /\ ((outcome (Cli.handler P a) = Ret tt
       /\ printed ErrorCh (trace (Cli.handler P a)) = [])
      \/ (outcome (Cli.handler P a) = Exit 1
          /\ exists msg, printed ErrorCh (trace (Cli.handler P a)) = [ msg ])).
Proof.
  destruct a as [ argv | argv | argv ]; simpl.
  - destruct (Js.truthy_str (BucketCmd.key argv)) eqn:Hkey.
    + rewrite (bucket_handler_guarded P argv Hkey).
      apply guarded_tame, bucket_dispatch_tame.
    + unfold BucketCmd.handler. rewrite Hkey. simpl. split; [ lia | ].
      right. split; [ reflexivity | now eexists ].
  - destruct (Js.truthy_str (FileCmd.key argv)) eqn:Hkey;
      [ destruct (Js.truthy_str (FileCmd.bucket argv)) eqn:Hbucket | ].
    + rewrite (file_handler_guarded P argv Hkey Hbucket).
      apply guarded_tame, file_dispatch_tame.
    + unfold FileCmd.handler. rewrite Hkey, Hbucket. simpl. split; [ lia | ].
      right. split; [ reflexivity | now eexists ].
    + unfold FileCmd.handler. rewrite Hkey. simpl. split; [ lia | ].
      right. split; [ reflexivity | now eexists ].
  - destruct (Js.truthy_str (UrlCmd.key argv)) eqn:Hkey;
      [ destruct (Js.truthy_str (UrlCmd.bucket argv)) eqn:Hbucket | ].
    + rewrite (url_handler_guarded P argv Hkey Hbucket).
      apply guarded_tame, url_dispatch_tame.
    + unfold UrlCmd.handler. rewrite Hkey, Hbucket. simpl. split; [ lia | ].
      right. split; [ reflexivity | now eexists ].
    + unfold UrlCmd.handler. rewrite Hkey. simpl. split; [ lia | ].
      right. split; [ reflexivity | now eexists ].
Qed.

(** X5. Whatever the command line, the environment and the answers of
    the service and of the file system, one run invokes at most one client
    operation. *)
Theorem at_most_one_client_call
    (P : Platform) (env : ProcessEnv) (inv : Cli.Invocation) :
  (List.length (calls (trace (Cli.run P env inv))) <= 1)%nat.
Proof. unfold Cli.run. apply handler_shape. Qed.

(** X6. Called with any [argv] whatever (any action, any arguments),
    against any service and file system, each of the three handlers knows
    two ways to end: it returns, with nothing written through
    [logger.error] (status 0), or it calls [process.exit(1)] after exactly
    one line written through [logger.error].  For the invocations a handler
    gets, status 1 goes with exactly one error line and status 0 with none.
    (What yargs does with a command line it rejects happens before any
    handler and is not covered.) *)
Theorem exit_status_matches_error_channel (P : Platform) (a : Cli.Parsed) :
  (outcome (Cli.handler P a) = Ret tt
   /\ exit_status (Cli.handler P a) = 0%Z
   /\ printed ErrorCh (trace (Cli.handler P a)) = [])
  \/ (outcome (Cli.handler P a) = Exit 1
      /\ exit_status (Cli.handler P a) = 1%Z
      /\ exists msg : string,
          printed ErrorCh (trace (Cli.handler P a)) = [ msg ]).
Proof.
  unfold exit_status.
  destruct (handler_shape P a) as [ _ [ [ Hout Hquiet ] | [ Hout Hmsg ] ] ];
    rewrite Hout; [ left | right ]; auto.
Qed.

(** *** Unknown actions *)

Lemma not_listed (a s : string) (known : list string) :
  ~ In a known -> In s known -> (a =? s) = false.
Proof.
  intros Hnot Hin. apply String.eqb_neq. intros ->. contradiction.
Qed.

Ltac skip_cases Hnot :=
  repeat match goal with
    | |- context [ (?a =? ?s)%string ] =>
        rewrite (not_listed a s _ Hnot) by (simpl; tauto)
    end.

(** X7. The [default] case of the three [switch]es.  A handler that is
    called with an [argv] whose action is none of its cases (as the test
    suite calls it; on the command line yargs' [choices] turns such a token
    away before any handler) and whose credential (and bucket) are there
    builds the client, writes the line "Unknown action: <action>" through
    [logger.error] and calls [process.exit(1)]: nothing is asked of the
    client. *)
Theorem unknown_action_is_rejected (P : Platform) (a : Cli.Parsed) :
  ready a = true ->
  ~ In (action a) (known_actions a) ->
  Cli.handler P a
  = ([ NewClient (Cli.url a) (Cli.key a);
       Print ErrorCh ("Unknown action: " ++ action a) ],
     Exit 1).
Proof.
  intros Hready Hnot. destruct a as [ argv | argv | argv ];
    cbn [ready action known_actions Cli.url Cli.key Cli.handler] in *.
  - rewrite (bucket_handler_guarded P argv Hready), guarded_unfold.
    unfold BucketCmd.dispatch; cbv zeta.
    skip_cases Hnot. reflexivity.
  - apply andb_prop in Hready as [Hkey Hbucket].
    rewrite (file_handler_guarded P argv Hkey Hbucket), guarded_unfold.
    unfold FileCmd.dispatch; cbv zeta.
    skip_cases Hnot. reflexivity.
  - apply andb_prop in Hready as [Hkey Hbucket].
    rewrite (url_handler_guarded P argv Hkey Hbucket), guarded_unfold.
    unfold UrlCmd.dispatch; cbv zeta.
    skip_cases Hnot. reflexivity.
Qed.

Lemma unknown_action_is_rejected_witness :
  Cli.handler (Fixtures.platform Fixtures.ok_client)
    (Cli.UrlArgs (Fixtures.url_args "unknown" (Some "test.txt") None 3600))
  = ([ NewClient Fixtures.local_url "test-key";
       Print ErrorCh "Unknown action: unknown" ],
     Exit 1).
Proof.
  apply (unknown_action_is_rejected (Fixtures.platform Fixtures.ok_client)
           (Cli.UrlArgs (Fixtures.url_args "unknown" (Some "test.txt") None 3600))).
  - reflexivity.
  - simpl. intuition discriminate.
Defined.

(** *** The --json flag *)

Lemma same_conduct_refl (m : M unit) : same_conduct m m.
Proof. repeat split. Qed.

Lemma require_same (x : option string) (msg : string) (k1 k2 : string -> M unit) :
  (forall s, same_conduct (k1 s) (k2 s)) ->
  same_conduct (bind (require x msg) k1) (bind (require x msg) k2).
Proof.
  intros Hk. unfold require.
  destruct x as [ s | ]; [ destruct (Js.truthy_str s) | ];
    try apply same_conduct_refl.
  rewrite !bind_ret. apply Hk.
Qed.

Ltac close_same :=
  unfold same_conduct; run_op;
  rewrite ?calls_app, ?printed_app, ?calls_log, ?printed_error_log; simpl;
  repeat split; reflexivity.

Ltac walk_same :=
  repeat match goal with
    | |- same_conduct (if ?b then _ else _) (if ?b then _ else _) => destruct b
    | |- same_conduct (bind (require _ _) _) (bind (require _ _) _) =>
        apply require_same; intros ?
    end;
  try apply same_conduct_refl.

Lemma bucket_dispatch_json (P : Platform) (c : Client)
    (argv : BucketCmd.BucketArguments) (j : bool) :
  same_conduct
    (BucketCmd.dispatch P c
       (BucketCmd.mkArgs (BucketCmd.action argv) (BucketCmd.name argv)
          (BucketCmd.url argv) (BucketCmd.key argv) j (BucketCmd.public argv)))
    (BucketCmd.dispatch P c argv).
Proof.
  unfold BucketCmd.dispatch; cbv zeta.
  cbn [BucketCmd.action BucketCmd.name BucketCmd.json BucketCmd.public].
  walk_same.
  - unfold BucketCmd.listBuckets. close_same.
  - unfold BucketCmd.createBucket. close_same.
  - unfold BucketCmd.getBucket. close_same.
  - unfold BucketCmd.updateBucket. close_same.
Qed.

Lemma file_dispatch_json (P : Platform) (c : Client)
    (argv : FileCmd.FileArguments) (j : bool) :
  same_conduct
    (FileCmd.dispatch P c
       (FileCmd.mkArgs (FileCmd.action argv) (FileCmd.bucket argv)
          (FileCmd.args argv) (FileCmd.file argv) (FileCmd.path argv)
          (FileCmd.output argv) (FileCmd.from argv) (FileCmd.to argv)
          (FileCmd.prefix argv) (FileCmd.limit argv) (FileCmd.search argv)
          (FileCmd.upsert argv) (FileCmd.url argv) (FileCmd.key argv) j))
    (FileCmd.dispatch P c argv).
Proof.
  unfold FileCmd.dispatch, FileCmd.actualPath; cbv zeta.
  cbn [FileCmd.action FileCmd.bucket FileCmd.args FileCmd.file FileCmd.path
       FileCmd.output FileCmd.from FileCmd.to FileCmd.prefix FileCmd.limit
       FileCmd.search FileCmd.upsert FileCmd.json].
  walk_same.
  - unfold FileCmd.uploadFile. close_same.
  - unfold FileCmd.listFiles. close_same.
  - unfold FileCmd.deleteFiles. close_same.
  - unfold FileCmd.moveFile. close_same.
  - unfold FileCmd.copyFile. close_same.
  - unfold FileCmd.getFileInfo. close_same.
  - unfold FileCmd.checkFileExists. close_same.
  - unfold FileCmd.updateFile. close_same.
Qed.

Lemma url_dispatch_json (P : Platform) (c : Client)
    (argv : UrlCmd.UrlArguments) (j : bool) :
  same_conduct
    (UrlCmd.dispatch P c
       (UrlCmd.mkArgs (UrlCmd.action argv) (UrlCmd.bucket argv)
          (UrlCmd.path argv) (UrlCmd.args argv) (UrlCmd.expires argv)
          (UrlCmd.url argv) (UrlCmd.key argv) j (UrlCmd.download argv)))
    (UrlCmd.dispatch P c argv).
Proof.
  unfold UrlCmd.dispatch, UrlCmd.all_paths; cbv zeta.
  cbn [UrlCmd.action UrlCmd.bucket UrlCmd.path UrlCmd.args UrlCmd.expires
       UrlCmd.json UrlCmd.download].
  walk_same.
  - unfold UrlCmd.getPublicUrl. close_same.
  - unfold UrlCmd.getSignedUrl. close_same.
  - unfold UrlCmd.getSignedUploadUrl. close_same.
  - unfold UrlCmd.getSignedUrls. close_same.
Qed.

Lemma guarded_same (P : Platform) (url key : string) (b1 b2 : Client -> M unit) :
  same_conduct (b1 (connect P url key)) (b2 (connect P url key)) ->
  same_conduct (guarded P url key b1) (guarded P url key b2).
Proof.
  intros (Hcalls & Hout & Hprint). unfold same_conduct.
  rewrite !guarded_calls, !guarded_unfold. cbn [trace outcome fst snd].
  destruct (b1 (connect P url key)) as [ t1 o1 ],
           (b2 (connect P url key)) as [ t2 o2 ].
  cbn [trace outcome fst snd] in *. subst o2.
  split; [ exact Hcalls | ].
  destruct o1 as [ [] | e | code ]; simpl; rewrite ?printed_app, Hprint; auto.
Qed.

(** X8. The [--json] flag changes what is written on the output
    channels and nothing else: with the flag set either way, a handler
    sends the same client requests, ends the same way, and writes the same
    lines on the error channel. *)
Theorem json_flag_changes_only_the_output
    (P : Platform) (a : Cli.Parsed) (j : bool) :
  calls (trace (Cli.handler P (with_json a j))) = calls (trace (Cli.handler P a))
  /\ outcome (Cli.handler P (with_json a j)) = outcome (Cli.handler P a)
  /\ printed ErrorCh (trace (Cli.handler P (with_json a j)))
     = printed ErrorCh (trace (Cli.handler P a)).
Proof.
  change (same_conduct (Cli.handler P (with_json a j)) (Cli.handler P a)).
  destruct a as [ argv | argv | argv ]; cbn [with_json Cli.handler].
  - unfold BucketCmd.handler. cbn [BucketCmd.key BucketCmd.url].
    destruct (Js.truthy_str (BucketCmd.key argv)); cbn [negb];
      [ | apply same_conduct_refl ].
    apply (guarded_same P _ _
             (fun client => BucketCmd.dispatch P client _)
             (fun client => BucketCmd.dispatch P client argv)).
    apply bucket_dispatch_json.
  - unfold FileCmd.handler. cbn [FileCmd.key FileCmd.url FileCmd.bucket].
    destruct (Js.truthy_str (FileCmd.key argv)); cbn [negb];
      [ | apply same_conduct_refl ].
    destruct (Js.truthy_str (FileCmd.bucket argv)); cbn [negb];
      [ | apply same_conduct_refl ].
    apply (guarded_same P _ _
             (fun client => FileCmd.dispatch P client _)
             (fun client => FileCmd.dispatch P client argv)).
    apply file_dispatch_json.
  - unfold UrlCmd.handler. cbn [UrlCmd.key UrlCmd.url UrlCmd.bucket].
    destruct (Js.truthy_str (UrlCmd.key argv)); cbn [negb];
      [ | apply same_conduct_refl ].
    destruct (Js.truthy_str (UrlCmd.bucket argv)); cbn [negb];
      [ | apply same_conduct_refl ].
    apply (guarded_same P _ _
             (fun client => UrlCmd.dispatch P client _)
             (fun client => UrlCmd.dispatch P client argv)).
    apply url_dispatch_json.
Qed.

End RunFacts.

(** ** Action by action *)

Module ActionFacts.
Import Storage Effects Common Config Observations Conduct HandlerFacts.
#[local] Open Scope string_scope.

(** *** Transfers *)

(** X9. [file upload] and [file update] read the local file before
    anything is sent: when it cannot be read, the run is the construction of
    the client, the attempt to read and the message of the file-system error
    on the error channel; it ends with status 1 and no client call. *)
Theorem unreadable_file_is_not_sent
    (P : Platform) (argv : FileCmd.FileArguments) (f : string) (e : JsError) :
  Js.truthy_str (FileCmd.key argv) = true ->
  Js.truthy_str (FileCmd.bucket argv) = true ->
  FileCmd.action argv = "upload"
  \/ (FileCmd.action argv = "update" /\ Js.truthy (FileCmd.path argv) = true) ->
  FileCmd.file argv = Some f ->
  Js.truthy_str f = true ->
  readFileSync P f = Failed e ->
  FileCmd.handler P argv
  = ([ NewClient (FileCmd.url argv) (FileCmd.key argv);
       FsRead f;
       Print ErrorCh (message e) ],
     Exit 1).
Proof.
  intros Hkey Hbucket Hact Hfile Hf Hread.
  rewrite (file_handler_guarded P argv Hkey Hbucket), guarded_unfold.
  unfold FileCmd.dispatch; cbv zeta.
  destruct Hact as [ Hact | [ Hact Hpath ] ]; rewrite Hact; pick_case;
    rewrite Hfile, (require_some _ _ _ Hf).
  - unfold FileCmd.uploadFile, FileCmd.fs_readFileSync. rewrite Hread.
    reflexivity.
  - destruct (require_truthy (A := unit) _
                "Remote path required (use --path to specify destination)"
                (fun remotePath =>
                   FileCmd.updateFile P
                     (connect P (FileCmd.url argv) (FileCmd.key argv))
                     (FileCmd.bucket argv) f remotePath
                     (FileCmd.upsert argv) (FileCmd.json argv)) Hpath)
      as (p & _ & _ & ->).
    unfold FileCmd.updateFile, FileCmd.fs_readFileSync. rewrite Hread.
    reflexivity.
Qed.

Lemma unreadable_file_is_not_sent_witness :
  FileCmd.handler Scenarios.unreadable
    (Fixtures.file_args "upload" None (Some "/local/test.txt") None false)
  = ([ NewClient Fixtures.local_url "test-key";
       FsRead "/local/test.txt";
       Print ErrorCh "ENOENT: no such file or directory" ],
     Exit 1).
Proof.
  apply (unreadable_file_is_not_sent Scenarios.unreadable
           (Fixtures.file_args "upload" None (Some "/local/test.txt") None false)
           "/local/test.txt" Scenarios.enoent);
    try reflexivity.
  left. reflexivity.
Defined.

Lemma or_else_some (s d : string) :
  Js.truthy_str s = true -> Js.or_else (Some s) d = s.
Proof. unfold Js.or_else. now intros ->. Qed.

(** X10. With the local file readable, [upload] and [update] send it
    under the given [--path] with the [upsert] flag and a content type
    taken from the local file name, not from the remote path; when the
    service accepts, the one success line names the bucket and the path the
    service returned, and the status is 0. *)
Theorem transfer_sends_local_type_to_given_path
    (P : Platform) (argv : FileCmd.FileArguments)
    (f p : string) (body : Buffer) (st : Stats) :
  Js.truthy_str (FileCmd.key argv) = true ->
  Js.truthy_str (FileCmd.bucket argv) = true ->
  FileCmd.file argv = Some f -> Js.truthy_str f = true ->
  FileCmd.path argv = Some p -> Js.truthy_str p = true ->
  readFileSync P f = Ok body ->
  statSync P f = Ok st ->
  (FileCmd.action argv = "upload" ->
   calls (trace (FileCmd.handler P argv))
   = [ Upload (FileCmd.bucket argv) p body
         (mkFileOptions (FileCmd.upsert argv) (Utils.getContentType f)) ]
   /\ forall data : Uploaded,
       upload (connect P (FileCmd.url argv) (FileCmd.key argv))
         (FileCmd.bucket argv) p body
         (mkFileOptions (FileCmd.upsert argv) (Utils.getContentType f)) = Ok data ->
       printed SuccessCh (trace (FileCmd.handler P argv))
       = [ "Uploaded: " ++ FileCmd.bucket argv ++ "/" ++ up_path data ]
       /\ exit_status (FileCmd.handler P argv) = 0%Z)
  /\ (FileCmd.action argv = "update" ->
      calls (trace (FileCmd.handler P argv))
      = [ Update (FileCmd.bucket argv) p body
            (mkFileOptions (FileCmd.upsert argv) (Utils.getContentType f)) ]
      /\ forall data : Uploaded,
          update (connect P (FileCmd.url argv) (FileCmd.key argv))
            (FileCmd.bucket argv) p body
            (mkFileOptions (FileCmd.upsert argv) (Utils.getContentType f)) = Ok data ->
          printed SuccessCh (trace (FileCmd.handler P argv))
          = [ "Updated: " ++ FileCmd.bucket argv ++ "/" ++ up_path data ]
          /\ exit_status (FileCmd.handler P argv) = 0%Z).
Proof.
  intros Hkey Hbucket Hfile Hf Hpath Hp Hread Hstat.
  rewrite (file_handler_guarded P argv Hkey Hbucket).
  split; intros Hact.
  - assert (Hdispatch : forall c,
      FileCmd.dispatch P c argv
      = FileCmd.uploadFile P c (FileCmd.bucket argv) f (Some p)
          (FileCmd.upsert argv) (FileCmd.json argv)).
    { intros c. unfold FileCmd.dispatch; cbv zeta. rewrite Hact; pick_case.
      now rewrite Hfile, (require_some _ _ _ Hf), Hpath. }
    split.
    + rewrite guarded_calls, Hdispatch.
      rewrite <- (or_else_some p (NodePath.basename f) Hp) at 2.
      now apply (uploadFile_answers P _ _ f (Some p) _ _ body st).
    + intros data Hok. rewrite guarded_unfold, Hdispatch.
      unfold FileCmd.uploadFile, FileCmd.fs_readFileSync, FileCmd.fs_statSync.
      cbv zeta. rewrite (or_else_some p _ Hp), Hread, Hstat.
      unfold await, unwrap, bind; simpl. rewrite Hok.
      destruct (FileCmd.json argv); split; reflexivity.
  - assert (Hdispatch : forall c,
      FileCmd.dispatch P c argv
      = FileCmd.updateFile P c (FileCmd.bucket argv) f p
          (FileCmd.upsert argv) (FileCmd.json argv)).
    { intros c. unfold FileCmd.dispatch; cbv zeta. rewrite Hact; pick_case.
      now rewrite Hfile, (require_some _ _ _ Hf), Hpath, (require_some _ _ _ Hp). }
    split.
    + rewrite guarded_calls, Hdispatch.
      now apply (updateFile_answers P _ _ f p _ _ body st).
    + intros data Hok. rewrite guarded_unfold, Hdispatch.
      unfold FileCmd.updateFile, FileCmd.fs_readFileSync, FileCmd.fs_statSync.
      cbv zeta. rewrite Hread, Hstat.
      unfold await, unwrap, bind; simpl. rewrite Hok.
      destruct (FileCmd.json argv); split; reflexivity.
Qed.

Lemma transfer_sends_local_type_to_given_path_witness :
  calls (trace (FileCmd.handler (Fixtures.platform Fixtures.ok_client)
                  (Fixtures.file_args "upload" None (Some "./Vacation.JPG")
                     (Some "2024/summer/vacation") false)))
  = [ Upload "test-bucket" "2024/summer/vacation" []
        (mkFileOptions false "image/jpeg") ].
Proof.
  destruct (transfer_sends_local_type_to_given_path
              (Fixtures.platform Fixtures.ok_client)
              (Fixtures.file_args "upload" None (Some "./Vacation.JPG")
                 (Some "2024/summer/vacation") false)
              "./Vacation.JPG" "2024/summer/vacation" [] (mkStats 12)
              eq_refl eq_refl eq_refl eq_refl eq_refl eq_refl eq_refl eq_refl)
    as [ Hupload _ ].
  exact (proj1 (Hupload eq_refl)).
Defined.

Lemma file_download_dispatch (P : Platform) (c : Client)
    (argv : FileCmd.FileArguments) (p : string) :
  FileCmd.action argv = "download" ->
  FileCmd.actualPath argv = Some p ->
  Js.truthy_str p = true ->
  FileCmd.dispatch P c argv
  = FileCmd.downloadFile P c (FileCmd.bucket argv) p (FileCmd.output argv)
      (FileCmd.json argv).
Proof.
  intros Hact Hpath Hp. unfold FileCmd.dispatch; cbv zeta.
  rewrite Hact; pick_case. now rewrite Hpath, (require_some _ _ _ Hp).
Qed.

(** X11. [file download] touches the local disk only with what the
    service delivered.  When the download fails nothing is written: the
    error is reported and the status is 1.  When it succeeds the received
    bytes, unchanged, are written to [--output], or to the base name of the
    remote path when [--output] is missing, and the size is reported; a
    failure of that write is reported like any other error, status 1. *)
Theorem download_writes_what_was_received
    (P : Platform) (argv : FileCmd.FileArguments) (p : string) :
  FileCmd.action argv = "download" ->
  Js.truthy_str (FileCmd.key argv) = true ->
  Js.truthy_str (FileCmd.bucket argv) = true ->
  FileCmd.actualPath argv = Some p ->
  Js.truthy_str p = true ->
  match download (connect P (FileCmd.url argv) (FileCmd.key argv))
          (FileCmd.bucket argv) p with
  | Failed e =>
      FileCmd.handler P argv
      = ([ NewClient (FileCmd.url argv) (FileCmd.key argv);
           Print InfoCh "Downloading...";
           Call (DownloadFile (FileCmd.bucket argv) p);
           Print ErrorCh (message e) ],
         Exit 1)
  | Ok received =>
      let output := Js.or_else (FileCmd.output argv) (NodePath.basename p) in
      match writeFileSync P output received with
      | Ok _ =>
          FileCmd.handler P argv
          = ([ NewClient (FileCmd.url argv) (FileCmd.key argv);
               Print InfoCh "Downloading...";
               Call (DownloadFile (FileCmd.bucket argv) p);
               FsWrite output received;
               Print SuccessCh
                 ("Downloaded: " ++ output ++ " ("
                  ++ Utils.formatBytes (N.of_nat (List.length received)) ++ ")") ],
             Ret tt)
      | Failed e =>
          FileCmd.handler P argv
          = ([ NewClient (FileCmd.url argv) (FileCmd.key argv);
               Print InfoCh "Downloading...";
               Call (DownloadFile (FileCmd.bucket argv) p);
               FsWrite output received;
               Print ErrorCh (message e) ],
             Exit 1)
      end
  end.
Proof.
  intros Hact Hkey Hbucket Hpath Hp.
  rewrite (file_handler_guarded P argv Hkey Hbucket), guarded_unfold.
  rewrite (file_download_dispatch P _ argv p Hact Hpath Hp).
  unfold FileCmd.downloadFile, FileCmd.fs_writeFileSync, await, unwrap, bind.
  simpl.
  destruct (download _ _ p) as [ received | e ]; simpl; [ | reflexivity ].
  destruct (writeFileSync P _ received) as [ [] | e ]; reflexivity.
Qed.

Lemma download_writes_what_was_received_witness :
  FileCmd.handler (Fixtures.platform Scenarios.listing_client)
    (Fixtures.file_args "download" (Some ["2024/notes.txt"]) None None false)
  = ([ NewClient Fixtures.local_url "test-key";
       Print InfoCh "Downloading...";
       Call (DownloadFile "test-bucket" "2024/notes.txt");
       FsWrite "notes.txt" [Byte.x68; Byte.x69];
       Print SuccessCh "Downloaded: notes.txt (2 B)" ],
     Ret tt).
Proof.
  exact (download_writes_what_was_received
           (Fixtures.platform Scenarios.listing_client)
           (Fixtures.file_args "download" (Some ["2024/notes.txt"]) None None false)
           "2024/notes.txt" eq_refl eq_refl eq_refl eq_refl eq_refl).
Defined.

(** X12. [file move] and [file copy] pass [--from] as the source and
    [--to] as the destination of their single client call, in that
    order. *)
Theorem move_and_copy_keep_direction
    (P : Platform) (argv : FileCmd.FileArguments)
    (action : string) (request : string -> string -> string -> Request)
    (from to : string) :
  In (action, request) [ ("move", Move); ("copy", Copy) ] ->
  FileCmd.action argv = action ->
  Js.truthy_str (FileCmd.key argv) = true ->
  Js.truthy_str (FileCmd.bucket argv) = true ->
  FileCmd.from argv = Some from -> Js.truthy_str from = true ->
  FileCmd.to argv = Some to -> Js.truthy_str to = true ->
  calls (trace (FileCmd.handler P argv))
  = [ request (FileCmd.bucket argv) from to ].
Proof.
  intros Hin Hact Hkey Hbucket Hfrom Hf Hto Ht.
  rewrite (file_handler_guarded P argv Hkey Hbucket), guarded_calls.
  unfold FileCmd.dispatch; cbv zeta. rewrite Hact. simpl in Hin.
  destruct Hin as [ Hin | [ Hin | [] ] ]; injection Hin as <- <-; pick_case;
    rewrite Hfrom, (require_some _ _ _ Hf), Hto, (require_some _ _ _ Ht).
  - apply moveFile_answers.
  - apply copyFile_answers.
Qed.

Lemma move_and_copy_keep_direction_witness :
  calls (trace (FileCmd.handler (Fixtures.platform Fixtures.ok_client)
                  (Scenarios.move_args "move" "old.txt" "new.txt")))
  = [ Move "test-bucket" "old.txt" "new.txt" ].
Proof.
  apply (move_and_copy_keep_direction (Fixtures.platform Fixtures.ok_client)
           (Scenarios.move_args "move" "old.txt" "new.txt") "move" Move
           "old.txt" "new.txt");
    try reflexivity.
  left. reflexivity.
Defined.

(** *** URLs *)

(** X13. [url public] cannot fail once its path is there: the public
    URL is computed by one client operation that has no error to return, so
    the run ends with status 0 and a silent error channel; in text mode it
    prints the heading and the URL, and the download mode when [--download]
    is set to something truthy. *)
Theorem public_url_never_fails
    (P : Platform) (argv : UrlCmd.UrlArguments) (p : string) :
  UrlCmd.action argv = "public" ->
  Js.truthy_str (UrlCmd.key argv) = true ->
  Js.truthy_str (UrlCmd.bucket argv) = true ->
  UrlCmd.path argv = Some p ->
  Js.truthy_str p = true ->
  exit_status (UrlCmd.handler P argv) = 0%Z
  /\ printed ErrorCh (trace (UrlCmd.handler P argv)) = []
  /\ calls (trace (UrlCmd.handler P argv))
     = [ GetPublicUrl (UrlCmd.bucket argv) p (UrlCmd.download argv) ]
  /\ (UrlCmd.json argv = false ->
      printed LogCh (trace (UrlCmd.handler P argv))
      = List.app
          [ nl ++ "🔗 Public URL:" ++ nl;
            "  " ++ getPublicUrl (connect P (UrlCmd.url argv) (UrlCmd.key argv))
                      (UrlCmd.bucket argv) p (UrlCmd.download argv) ]
          (if UrlCmd.truthy_download (UrlCmd.download argv)
           then [ "  (Download mode: "
                  ++ UrlCmd.download_mode (UrlCmd.download argv) ++ ")" ]
           else [])).
Proof.
  intros Hact Hkey Hbucket Hpath Hp.
  rewrite (url_handler_guarded P argv Hkey Hbucket), guarded_unfold.
  unfold UrlCmd.dispatch; cbv zeta. rewrite Hact; pick_case.
  rewrite Hpath, (require_some _ _ _ Hp).
  unfold UrlCmd.getPublicUrl, await, when, bind; simpl.
  destruct (UrlCmd.json argv); simpl.
  - repeat split. discriminate.
  - destruct (UrlCmd.truthy_download (UrlCmd.download argv)); repeat split.
Qed.

Lemma public_url_never_fails_witness :
  exit_status
    (UrlCmd.handler (Fixtures.platform Fixtures.failing_client)
       (Fixtures.url_args "public" (Some "test.txt") None 3600)) = 0%Z.
Proof.
  apply (public_url_never_fails (Fixtures.platform Fixtures.failing_client)
           (Fixtures.url_args "public" (Some "test.txt") None 3600) "test.txt");
    reflexivity.
Defined.

(** X14. The tally of [signed-urls] never exceeds the number of
    returned entries: successes and failures add up to it, and it is the
    full number exactly when no entry carries an error. *)
Theorem tally_counts_entries_without_error (data : list SignedUrlItem) :
  (UrlCmd.successCount data
   + List.length (filter UrlCmd.has_error data) = List.length data)%nat
  /\ (UrlCmd.successCount data = List.length data
      <-> existsb UrlCmd.has_error data = false).
Proof.
  unfold UrlCmd.successCount.
  induction data as [ | item rest [ IHsum IHall ] ]; simpl.
  - split; [ reflexivity | tauto ].
  - pose proof (filter_length_le (fun item => negb (UrlCmd.has_error item)) rest)
      as Hle.
    destruct (UrlCmd.has_error item); simpl.
    + split; [ lia | ]. split; [ lia | discriminate ].
    + split; [ lia | ]. rewrite <- IHall. split; lia.
Qed.

(** *** Listings *)

Lemma forEach_show_bucket (data : list Bucket) :
  forEach data BucketCmd.show_bucket
  = (map (Print LogCh) (flat_map bucket_lines data), Ret tt).
Proof.
  induction data as [ | b rest IH ]; simpl; [ reflexivity | ].
  unfold bind. rewrite IH, map_app.
  unfold BucketCmd.show_bucket, bucket_lines, when_num, truthy_num.
  destruct (file_size_limit b) as [ limit | ]; [ | reflexivity ].
  destruct (limit =? 0)%N; reflexivity.
Qed.



(** *** Defaults, from the command line to the client *)

(** X16. [file list <bucket>]: the one request lists under [--prefix],
    or under the empty prefix when there is none, with [--limit], or 100
    when there is none, and with the search term as given. *)
Theorem file_list_uses_builder_defaults
    (P : Platform) (env : ProcessEnv) (c : FileCmd.FileCli) :
  FileCmd.cli_action c = "list" ->
  resolve_key env (FileCmd.cli_globals c) <> "" ->
  FileCmd.cli_bucket c <> "" ->
  calls (trace (Cli.run P env (Cli.File c)))
  = [ ListFiles (FileCmd.cli_bucket c)
        (match FileCmd.cli_prefix c with Some p => p | None => "" end)
        (match FileCmd.cli_limit c with Some l => l | None => 100%Z end)
        (FileCmd.cli_search c) ].
Proof.
  intros Hact Hkey Hbucket.
  assert (Hk : Js.truthy_str (resolve_key env (FileCmd.cli_globals c)) = true)
    by (unfold Js.truthy_str; now rewrite (proj2 (String.eqb_neq _ _) Hkey)).
  assert (Hb : Js.truthy_str (FileCmd.cli_bucket c) = true)
    by (unfold Js.truthy_str; now rewrite (proj2 (String.eqb_neq _ _) Hbucket)).
  unfold Cli.run, Cli.builder, Cli.handler.
  rewrite (file_handler_guarded P (FileCmd.builder env c) Hk Hb), guarded_calls.
  unfold FileCmd.dispatch; cbv zeta.
  cbn [FileCmd.builder FileCmd.action FileCmd.bucket FileCmd.prefix FileCmd.limit
       FileCmd.search FileCmd.json FileCmd.url FileCmd.key].
  rewrite Hact; pick_case.
  replace (match FileCmd.cli_prefix c with Some p => p | None => "" end)
    with (Js.or_else (FileCmd.cli_prefix c) "").
  - apply listFiles_answers.
  - unfold Js.or_else, Js.truthy_str.
    destruct (FileCmd.cli_prefix c) as [ p | ]; [ | reflexivity ].
    destruct (String.eqb_spec p ""); simpl; congruence.
Qed.

Lemma file_list_uses_builder_defaults_witness :
  calls (trace (Cli.run (Fixtures.platform Fixtures.ok_client) Fixtures.no_env
                  (Cli.File (Scenarios.file_cli "list" None None
                               (Scenarios.url_flags None (Some "test-key"))))))
  = [ ListFiles "test-bucket" "" 100 None ].
Proof.
  apply (file_list_uses_builder_defaults (Fixtures.platform Fixtures.ok_client)
           Fixtures.no_env
           (Scenarios.file_cli "list" None None
              (Scenarios.url_flags None (Some "test-key"))));
    [ reflexivity | discriminate | discriminate ].
Defined.

(** X17. [url signed <bucket> <path>]: the one request asks for a
    signed URL that expires after [--expires] seconds, 3600 when the option
    is not given, with the [--download] option passed on as given. *)
Theorem signed_url_expiry_default
    (P : Platform) (env : ProcessEnv) (c : UrlCmd.UrlCli) (p : string) :
  UrlCmd.cli_action c = "signed" ->
  resolve_key env (UrlCmd.cli_globals c) <> "" ->
  UrlCmd.cli_bucket c <> "" ->
  UrlCmd.cli_path c = Some p ->
  p <> "" ->
  calls (trace (Cli.run P env (Cli.Url c)))
  = [ CreateSignedUrl (UrlCmd.cli_bucket c) p
        (match UrlCmd.cli_expires c with Some s => s | None => 3600%Z end)
        (UrlCmd.cli_download c) ].
Proof.
  intros Hact Hkey Hbucket Hpath Hp.
  assert (Hk : Js.truthy_str (resolve_key env (UrlCmd.cli_globals c)) = true)
    by (unfold Js.truthy_str; now rewrite (proj2 (String.eqb_neq _ _) Hkey)).
  assert (Hb : Js.truthy_str (UrlCmd.cli_bucket c) = true)
    by (unfold Js.truthy_str; now rewrite (proj2 (String.eqb_neq _ _) Hbucket)).
  assert (Hpt : Js.truthy_str p = true)
    by (unfold Js.truthy_str; now rewrite (proj2 (String.eqb_neq _ _) Hp)).
  unfold Cli.run, Cli.builder, Cli.handler.
  rewrite (url_handler_guarded P (UrlCmd.builder env c) Hk Hb), guarded_calls.
  unfold UrlCmd.dispatch; cbv zeta.
  cbn [UrlCmd.builder UrlCmd.action UrlCmd.bucket UrlCmd.path UrlCmd.expires
       UrlCmd.download UrlCmd.json UrlCmd.url UrlCmd.key].
  rewrite Hact; pick_case. rewrite Hpath, (require_some _ _ _ Hpt).
  apply getSignedUrl_answers.
Qed.

Lemma signed_url_expiry_default_witness :
  calls (trace (Cli.run (Fixtures.platform Fixtures.ok_client) Fixtures.no_env
                  (Cli.Url (Scenarios.url_cli "signed" (Some "test.txt") None
                              (Scenarios.url_flags None (Some "test-key"))))))
  = [ CreateSignedUrl "test-bucket" "test.txt" 3600 None ].
Proof.
  apply (signed_url_expiry_default (Fixtures.platform Fixtures.ok_client)
           Fixtures.no_env
           (Scenarios.url_cli "signed" (Some "test.txt") None
              (Scenarios.url_flags None (Some "test-key"))) "test.txt");
    [ reflexivity | discriminate | discriminate | reflexivity | discriminate ].
Defined.

(** X18. On a command line whose action is one of the builder's
    [choices], once the credential (and the bucket) are there, the first
    thing a run does is to build the client, for the endpoint given by
    [--url], else by a non-empty [STORAGE_URL], else for the local
    development address, and with the key given by [--key], else by
    [STORAGE_SERVICE_KEY]. *)
Theorem client_is_built_for_the_resolved_endpoint
    (P : Platform) (env : ProcessEnv) (inv : Cli.Invocation) :
  In (action (Cli.builder env inv)) (known_actions (Cli.builder env inv)) ->
  ready (Cli.builder env inv) = true ->
  exists rest : list Event,
    trace (Cli.run P env inv)
    = NewClient
        (match flag_url (Cli.globals inv), STORAGE_URL env with
         | Some u, _ => u
         | None, Some e => if e =? "" then "http://localhost:5000/storage/v1" else e
         | None, None => "http://localhost:5000/storage/v1"
         end)
        (match flag_key (Cli.globals inv), STORAGE_SERVICE_KEY env with
         | Some k, _ => k
         | None, Some e => e
         | None, None => ""
         end)
      :: rest.
Proof.
  intros _ Hready.
  assert (Hurl : forall g,
    resolve_url env g
    = match flag_url g, STORAGE_URL env with
      | Some u, _ => u
      | None, Some e => if e =? "" then "http://localhost:5000/storage/v1" else e
      | None, None => "http://localhost:5000/storage/v1"
      end).
  { intros g. unfold resolve_url, default_url, with_default, Js.or_else, Js.truthy_str.
    destruct (flag_url g); [ reflexivity | ].
    destruct (STORAGE_URL env) as [ e | ]; [ | reflexivity ].
    now destruct (e =? ""). }
  rewrite <- Hurl, <- resolve_key_fallback.
  destruct inv as [ c | c | c ]; unfold Cli.run;
    cbn [Cli.builder Cli.handler Cli.globals ready] in *.
  - rewrite (bucket_handler_guarded P _ Hready), guarded_unfold.
    eexists. reflexivity.
  - apply andb_prop in Hready as [Hkey Hbucket].
    rewrite (file_handler_guarded P _ Hkey Hbucket), guarded_unfold.
    eexists. reflexivity.
  - apply andb_prop in Hready as [Hkey Hbucket].
    rewrite (url_handler_guarded P _ Hkey Hbucket), guarded_unfold.
    eexists. reflexivity.
Qed.

Lemma client_is_built_for_the_resolved_endpoint_witness :
  exists rest : list Event,
    trace (Cli.run (Fixtures.platform Fixtures.ok_client)
             (mkEnv (Some "") (Some "env-key"))
             (Cli.File (Scenarios.file_cli "list" None None
                          (Scenarios.url_flags None None))))
    = NewClient "http://localhost:5000/storage/v1" "env-key" :: rest.
Proof.
  exact (client_is_built_for_the_resolved_endpoint
           (Fixtures.platform Fixtures.ok_client)
           (mkEnv (Some "") (Some "env-key"))
           (Cli.File (Scenarios.file_cli "list" None None
                        (Scenarios.url_flags None None)))
           (or_intror (or_intror (or_introl eq_refl)))
           eq_refl).
Defined.

(** *** Buckets *)

(** X19. [bucket get], [bucket empty] and [bucket delete] act on the
    named bucket and on nothing else: their single client call carries the
    name given on the command line. *)
Theorem bucket_actions_target_the_named_bucket
    (P : Platform) (argv : BucketCmd.BucketArguments)
    (action : string) (request : string -> Request) (n : string) :
  In (action, request)
     [ ("get", GetBucket); ("empty", EmptyBucket); ("delete", DeleteBucket) ] ->
  BucketCmd.action argv = action ->
  Js.truthy_str (BucketCmd.key argv) = true ->
  BucketCmd.name argv = Some n ->
  Js.truthy_str n = true ->
  calls (trace (BucketCmd.handler P argv)) = [ request n ].
Proof.
  intros Hin Hact Hkey Hname Hn.
  rewrite (bucket_handler_guarded P argv Hkey), guarded_calls.
  unfold BucketCmd.dispatch; cbv zeta. rewrite Hact. simpl in Hin.
  destruct Hin as [ Hin | [ Hin | [ Hin | [] ] ] ]; injection Hin as <- <-;
    pick_case; rewrite Hname, (require_some _ _ _ Hn).
  - apply getBucket_answers.
  - apply emptyBucket_answers.
  - apply deleteBucket_answers.
Qed.

Lemma bucket_actions_target_the_named_bucket_witness :
  calls (trace (BucketCmd.handler (Fixtures.platform Fixtures.ok_client)
                  (Fixtures.bucket_args "delete" (Some "photos") None)))
  = [ DeleteBucket "photos" ].
Proof.
  apply (bucket_actions_target_the_named_bucket
           (Fixtures.platform Fixtures.ok_client)
           (Fixtures.bucket_args "delete" (Some "photos") None)
           "delete" DeleteBucket "photos");
    try reflexivity.
  right. right. left. reflexivity.
Defined.

(** X20. A visibility given with [--public], true or false, is passed
    on unchanged by [bucket create] and by [bucket update] in their single
    client call. *)
Theorem bucket_visibility_is_passed_on
    (P : Platform) (argv : BucketCmd.BucketArguments)
    (action : string) (request : string -> bool -> Request)
    (n : string) (visibility : bool) :
  In (action, request) [ ("create", CreateBucket); ("update", UpdateBucket) ] ->
  BucketCmd.action argv = action ->
  Js.truthy_str (BucketCmd.key argv) = true ->
  BucketCmd.name argv = Some n ->
  Js.truthy_str n = true ->
  BucketCmd.public argv = Some visibility ->
  calls (trace (BucketCmd.handler P argv)) = [ request n visibility ].
Proof.
  intros Hin Hact Hkey Hname Hn Hpublic.
  rewrite (bucket_handler_guarded P argv Hkey), guarded_calls.
  unfold BucketCmd.dispatch; cbv zeta. rewrite Hact. simpl in Hin.
  destruct Hin as [ Hin | [ Hin | [] ] ]; injection Hin as <- <-;
    pick_case; rewrite Hname, (require_some _ _ _ Hn), Hpublic.
  - apply (createBucket_answers P _ n (Some visibility)).
  - apply updateBucket_answers.
Qed.

Lemma bucket_visibility_is_passed_on_witness :
  calls (trace (BucketCmd.handler (Fixtures.platform Fixtures.ok_client)
                  (Fixtures.bucket_args "update" (Some "photos") (Some false))))
  = [ UpdateBucket "photos" false ].
Proof.
  apply (bucket_visibility_is_passed_on
           (Fixtures.platform Fixtures.ok_client)
           (Fixtures.bucket_args "update" (Some "photos") (Some false))
           "update" UpdateBucket "photos" false);
    try reflexivity.
  right. left. reflexivity.
Defined.

End ActionFacts.

(** ** The local disk *)

Module DiskFacts.
Import Storage Effects Common Config Observations Conduct HandlerFacts.
#[local] Open Scope string_scope.

Lemma disk_reads_app (t1 t2 : list Event) :
  disk_reads (t1 ++ t2)%list = (disk_reads t1 ++ disk_reads t2)%list.
Proof.
  induction t1 as [ | ev t1 IH ]; simpl; [ reflexivity | ].
  destruct ev; simpl; now rewrite IH.
Qed.

Lemma disk_writes_app (t1 t2 : list Event) :
  disk_writes (t1 ++ t2)%list = (disk_writes t1 ++ disk_writes t2)%list.
Proof.
  induction t1 as [ | ev t1 IH ]; simpl; [ reflexivity | ].
  destruct ev; simpl; now rewrite IH.
Qed.

Lemma disk_reads_log (ch : Channel) (msgs : list string) :
  disk_reads (map (Print ch) msgs) = [].
Proof. induction msgs; simpl; auto. Qed.

Lemma disk_writes_log (ch : Channel) (msgs : list string) :
  disk_writes (map (Print ch) msgs) = [].
Proof. induction msgs; simpl; auto. Qed.

Ltac close_dry :=
  unfold dry; run_op;
  rewrite ?disk_reads_app, ?disk_writes_app, ?disk_reads_log, ?disk_writes_log;
  simpl; split; reflexivity.

Lemma throw_dry (msg : string) : dry (throw msg).
Proof. split; reflexivity. Qed.

Lemma require_dry (x : option string) (msg : string) (k : string -> M unit) :
  (forall s, dry (k s)) -> dry (bind (require x msg) k).
Proof.
  intros Hk. unfold require.
  destruct x as [ s | ]; [ destruct (Js.truthy_str s) | ]; try apply throw_dry.
  rewrite bind_ret. apply Hk.
Qed.

Ltac walk_dry :=
  repeat match goal with
    | |- dry (if ?b then _ else _) => destruct b
    | |- dry (bind (require _ _) _) => apply require_dry; intros ?
    end;
  try apply throw_dry.

Lemma bucket_dispatch_dry (P : Platform) (c : Client)
    (argv : BucketCmd.BucketArguments) :
  dry (BucketCmd.dispatch P c argv).
Proof.
  unfold BucketCmd.dispatch; cbv zeta. walk_dry.
  - unfold BucketCmd.listBuckets. close_dry.
  - unfold BucketCmd.createBucket. close_dry.
  - unfold BucketCmd.getBucket. close_dry.
  - unfold BucketCmd.updateBucket. close_dry.
  - unfold BucketCmd.emptyBucket. close_dry.
  - unfold BucketCmd.deleteBucket. close_dry.
Qed.

Lemma url_dispatch_dry (P : Platform) (c : Client)
    (argv : UrlCmd.UrlArguments) :
  dry (UrlCmd.dispatch P c argv).
Proof.
  unfold UrlCmd.dispatch; cbv zeta. walk_dry.
  - unfold UrlCmd.getPublicUrl. close_dry.
  - unfold UrlCmd.getSignedUrl. close_dry.
  - unfold UrlCmd.getSignedUploadUrl. close_dry.
  - unfold UrlCmd.getSignedUrls. close_dry.
Qed.

Ltac enter_case E :=
  apply String.eqb_eq in E; try rewrite E;
  cbn [String.eqb Ascii.eqb Bool.eqb orb].

Lemma file_dispatch_disk (P : Platform) (c : Client)
    (argv : FileCmd.FileArguments) :
  file_disk_rule argv (FileCmd.dispatch P c argv).
Proof.
  unfold FileCmd.dispatch, file_disk_rule; cbv zeta.
  destruct (FileCmd.action argv =? "upload") eqn:Eupload.
  { enter_case Eupload.
    unfold require.
    destruct (FileCmd.file argv) as [ f | ]; [ destruct (Js.truthy_str f) | ];
      try (split; [ reflexivity | intros p [] ]).
    rewrite bind_ret. unfold FileCmd.uploadFile. run_op;
      rewrite ?disk_reads_app, ?disk_writes_app, ?disk_reads_log, ?disk_writes_log;
      simpl; (split; [ reflexivity | ]); intros p Hin; simpl in Hin;
      intuition congruence. }
  destruct (FileCmd.action argv =? "download") eqn:Edownload.
  { enter_case Edownload.
    unfold require.
    destruct (FileCmd.actualPath argv) as [ p | ]; [ destruct (Js.truthy_str p) | ];
      try (split; [ reflexivity | left; reflexivity ]).
    rewrite bind_ret. unfold FileCmd.downloadFile. run_op;
      rewrite ?disk_reads_app, ?disk_writes_app, ?disk_reads_log, ?disk_writes_log;
      simpl; (split; [ reflexivity | ]);
      first [ left; reflexivity | right; exists p; split; reflexivity ]. }
  destruct (FileCmd.action argv =? "list") eqn:Elist.
  { enter_case Elist. unfold FileCmd.listFiles. close_dry. }
  destruct (FileCmd.action argv =? "delete") eqn:Edelete.
  { enter_case Edelete.
    destruct (List.length (Js.or_nil (FileCmd.args argv)) =? 0)%nat;
      [ apply throw_dry | ].
    unfold FileCmd.deleteFiles. close_dry. }
  destruct (FileCmd.action argv =? "move") eqn:Emove.
  { enter_case Emove. do 2 (apply require_dry; intros ?).
    unfold FileCmd.moveFile. close_dry. }
  destruct (FileCmd.action argv =? "copy") eqn:Ecopy.
  { enter_case Ecopy. do 2 (apply require_dry; intros ?).
    unfold FileCmd.copyFile. close_dry. }
  destruct (FileCmd.action argv =? "info") eqn:Einfo.
  { enter_case Einfo. apply require_dry; intros ?.
    unfold FileCmd.getFileInfo. close_dry. }
  destruct (FileCmd.action argv =? "exists") eqn:Eexists.
  { enter_case Eexists. apply require_dry; intros ?.
    unfold FileCmd.checkFileExists. close_dry. }
  destruct (FileCmd.action argv =? "update") eqn:Eupdate.
  { cbn [orb]. unfold require.
    destruct (FileCmd.file argv) as [ f | ]; [ destruct (Js.truthy_str f) | ];
      try (split; [ reflexivity | intros p [] ]).
    rewrite bind_ret.
    destruct (FileCmd.path argv) as [ r | ]; [ destruct (Js.truthy_str r) | ];
      try (split; [ reflexivity | intros p [] ]).
    rewrite bind_ret. unfold FileCmd.updateFile. run_op;
      rewrite ?disk_reads_app, ?disk_writes_app, ?disk_reads_log, ?disk_writes_log;
      simpl; (split; [ reflexivity | ]); intros p Hin; simpl in Hin;
      intuition congruence. }
  cbn [orb]. apply throw_dry.
Qed.

Lemma guarded_disk (P : Platform) (url key : string) (body : Client -> M unit) :
  disk_reads (trace (guarded P url key body))
  = disk_reads (trace (body (connect P url key)))
  /\ disk_writes (trace (guarded P url key body))
     = disk_writes (trace (body (connect P url key))).
Proof.
  rewrite guarded_unfold. cbn [trace fst].
  destruct (body (connect P url key)) as [ t [ [] | e | code ] ]; simpl;
    rewrite ?disk_reads_app, ?disk_writes_app; simpl; rewrite ?app_nil_r;
    split; reflexivity.
Qed.

Lemma dry_obeys_rule (argv : FileCmd.FileArguments) (m : M unit) :
  dry m -> file_disk_rule argv m.
Proof.
  intros [Hr Hw]. unfold file_disk_rule.
  destruct (FileCmd.action argv =? "download").
  - split; [ exact Hr | now left ].
  - destruct ((FileCmd.action argv =? "upload") || (FileCmd.action argv =? "update")).
    + split; [ exact Hw | ]. rewrite Hr. intros p [].
    + now split.
Qed.

Lemma rule_by_disk (argv : FileCmd.FileArguments) (m1 m2 : M unit) :
  disk_reads (trace m1) = disk_reads (trace m2) ->
  disk_writes (trace m1) = disk_writes (trace m2) ->
  file_disk_rule argv m2 -> file_disk_rule argv m1.
Proof.
  unfold file_disk_rule, dry. intros -> ->. tauto.
Qed.

(** X21. The local disk is touched by the three transfer actions only.
    The bucket and url handlers, and every file action but [upload],
    [update] and [download], neither read nor write a local file.  [upload]
    and [update] never write, and read nothing but the file named by
    [--file].  [download] never reads, and writes at most once, to
    [--output] or else to the base name of the remote path. *)
Theorem disk_is_touched_by_transfers_only (P : Platform) :
  (forall argv : BucketCmd.BucketArguments, dry (BucketCmd.handler P argv))
  /\ (forall argv : UrlCmd.UrlArguments, dry (UrlCmd.handler P argv))
  /\ (forall argv : FileCmd.FileArguments,
        file_disk_rule argv (FileCmd.handler P argv)).
Proof.
  split; [ | split ]; intros argv.
  - unfold BucketCmd.handler.
    destruct (Js.truthy_str (BucketCmd.key argv)); cbn [negb];
      [ | split; reflexivity ].
    destruct (guarded_disk P (BucketCmd.url argv) (BucketCmd.key argv)
                (fun client => BucketCmd.dispatch P client argv)) as [Hr Hw].
    unfold guarded in Hr, Hw. unfold dry. rewrite Hr, Hw.
    apply bucket_dispatch_dry.
  - unfold UrlCmd.handler.
    destruct (Js.truthy_str (UrlCmd.key argv)); cbn [negb];
      [ | split; reflexivity ].
    destruct (Js.truthy_str (UrlCmd.bucket argv)); cbn [negb];
      [ | split; reflexivity ].
    destruct (guarded_disk P (UrlCmd.url argv) (UrlCmd.key argv)
                (fun client => UrlCmd.dispatch P client argv)) as [Hr Hw].
    unfold guarded in Hr, Hw. unfold dry. rewrite Hr, Hw.
    apply url_dispatch_dry.
  - unfold FileCmd.handler.
    destruct (Js.truthy_str (FileCmd.key argv)); cbn [negb];
      [ | apply dry_obeys_rule; split; reflexivity ].
    destruct (Js.truthy_str (FileCmd.bucket argv)); cbn [negb];
      [ | apply dry_obeys_rule; split; reflexivity ].
    destruct (guarded_disk P (FileCmd.url argv) (FileCmd.key argv)
                (fun client => FileCmd.dispatch P client argv)) as [Hr Hw].
    unfold guarded in Hr, Hw.
    apply (rule_by_disk argv _ _ Hr Hw), file_dispatch_disk.
Qed.

End DiskFacts.

(** ** Default names of transfers *)

Module NameFacts.
Import Storage Effects Common Config Observations Conduct HandlerFacts.
#[local] Open Scope string_scope.

Lemma component_truthy (dir name : string) :
  Js.truthy_str (dir ++ "/" ++ name) = true.
Proof.
  unfold Js.truthy_str. apply negb_true_iff, String.eqb_neq. intros E.
  apply (f_equal list_ascii_of_string) in E.
  rewrite PathFacts.component_chars in E. simpl in E.
  destruct (list_ascii_of_string dir); discriminate.
Qed.

(** X1. Transfers without an explicit destination keep the file's own
    name and drop its directory.  [upload] of a local file [dir/name]
    without [--path] stores it as [name], typed by the extension of [name];
    [download] of a remote [dir/name] without [--output] writes the local
    file [name]. *)
Theorem transfers_default_to_the_file_name
    (P : Platform) (argv : FileCmd.FileArguments) (dir name : string) :
  Js.truthy_str (FileCmd.key argv) = true ->
  Js.truthy_str (FileCmd.bucket argv) = true ->
  name <> "" ->
  no_slash (list_ascii_of_string name) = true ->
  (forall (body : Buffer) (st : Stats),
      FileCmd.action argv = "upload" ->
      FileCmd.file argv = Some (dir ++ "/" ++ name) ->
      Js.truthy (FileCmd.path argv) = false ->
      readFileSync P (dir ++ "/" ++ name) = Ok body ->
      statSync P (dir ++ "/" ++ name) = Ok st ->
      calls (trace (FileCmd.handler P argv))
      = [ Upload (FileCmd.bucket argv) name body
            (mkFileOptions (FileCmd.upsert argv) (Utils.getContentType name)) ])
  /\ (forall received : Buffer,
      FileCmd.action argv = "download" ->
      FileCmd.actualPath argv = Some (dir ++ "/" ++ name) ->
      Js.truthy (FileCmd.output argv) = false ->
      download (connect P (FileCmd.url argv) (FileCmd.key argv))
        (FileCmd.bucket argv) (dir ++ "/" ++ name) = Ok received ->
      disk_writes (trace (FileCmd.handler P argv)) = [ name ]).
Proof.
  intros Hkey Hbucket Hne Hns.
  pose proof (component_truthy dir name) as Hf.
  destruct (PathFacts.basename_component dir name Hne Hns) as [ _ Hbase ].
  rewrite (file_handler_guarded P argv Hkey Hbucket).
  split.
  - intros body st Hact Hfile Hpath Hread Hstat.
    rewrite guarded_calls.
    unfold FileCmd.dispatch; cbv zeta. rewrite Hact; pick_case.
    rewrite Hfile, (require_some _ _ _ Hf).
    destruct (uploadFile_answers P
                (connect P (FileCmd.url argv) (FileCmd.key argv))
                (FileCmd.bucket argv) (dir ++ "/" ++ name) (FileCmd.path argv)
                (FileCmd.upsert argv) (FileCmd.json argv) body st Hread Hstat)
      as (Hcalls & _).
    rewrite Hcalls, (or_else_falsy _ _ Hpath), Hbase.
    now rewrite (PathFacts.extname_component_type dir name Hne Hns).
  - intros received Hact Hpath Hout Hok.
    rewrite guarded_unfold.
    rewrite (ActionFacts.file_download_dispatch P _ argv _ Hact Hpath Hf).
    unfold FileCmd.downloadFile. rewrite Hok, (or_else_falsy _ _ Hout), Hbase.
    unfold FileCmd.fs_writeFileSync, await, unwrap, bind. simpl.
    destruct (writeFileSync P name received) as [ [] | e ]; reflexivity.
Qed.

Lemma transfers_default_to_the_file_name_witness :
  calls (trace (FileCmd.handler (Fixtures.platform Fixtures.ok_client)
                  (Fixtures.file_args "upload" None
                     (Some ("/home/me/my.photos" ++ "/" ++ "Vacation.JPG"))
                     None false)))
  = [ Upload "test-bucket" "Vacation.JPG" [] (mkFileOptions false "image/jpeg") ].
Proof.
  destruct (transfers_default_to_the_file_name
              (Fixtures.platform Fixtures.ok_client)
              (Fixtures.file_args "upload" None
                 (Some ("/home/me/my.photos" ++ "/" ++ "Vacation.JPG")) None false)
              "/home/me/my.photos" "Vacation.JPG" eq_refl eq_refl)
    as [ Hupload _ ]; [ discriminate | reflexivity | ].
  exact (Hupload [] (mkStats 12) eq_refl eq_refl eq_refl eq_refl eq_refl).
Defined.

End NameFacts.
